(** * graphlite/query.py: edge patterns and lazy composable queries

    A shallow embedding of the two classes of [graphlite/query.py], the edge
    pattern [V] and the [Query] object, together with the few pieces of the
    Python run time they rely on (the exceptions raised by sequence
    concatenation and attribute lookup, [str.join], [itertools.islice]). *)

From Stdlib Require Import ZArith List Ascii String Bool Lia DecimalString.
Import ListNotations.
Open Scope string_scope.
Open Scope list_scope.
Open Scope Z_scope.

(** ** Python values and exceptions *)

(** The exceptions the modelled code can raise.  [BackendError] stands for
    whatever [cursor.execute] raises. *)
Inductive exn : Type :=
| TypeError
| AttributeError
| ValueError
| IndexError
| BackendError.

Inductive result (A : Type) : Type :=
| Ok (a : A)
| Raise (e : exn).
Arguments Ok {A} a.
Arguments Raise {A} e.

Definition bind {A B} (r : result A) (k : A -> result B) : result B :=
  match r with
  | Ok a => k a
  | Raise e => Raise e
  end.

Definition fmap {A B} (f : A -> B) (r : result A) : result B :=
  bind r (fun a => Ok (f a)).

Notation "x <- c1 ;; c2" := (bind c1 (fun x => c2))
  (at level 61, c1 at next level, right associativity).

Notation "' pat <- c1 ;; c2" := (bind c1 (fun x => match x with pat => c2 end))
  (at level 61, pat pattern, c1 at next level, right associativity).

(** Node identifiers, relation names and SQL parameters: [None], an integer
    or a string. *)
Inductive atom : Type :=
| ANone
| AInt (z : Z)
| AStr (s : string).

(** Python's [==] on these values: values of different types differ. *)
Definition atom_eqb (a b : atom) : bool :=
  match a, b with
  | ANone, ANone => true
  | AInt x, AInt y => Z.eqb x y
  | AStr s, AStr t => String.eqb s t
  | _, _ => false
  end.

(** [x is None] *)
Definition is_None (a : atom) : bool :=
  match a with
  | ANone => true
  | _ => false
  end.

(** A Python sequence is a tuple or a list; the two do not concatenate. *)
Inductive pyseq (A : Type) : Type :=
| PTuple (l : list A)
| PList (l : list A).
Arguments PTuple {A} l.
Arguments PList {A} l.

Definition items {A} (s : pyseq A) : list A :=
  match s with
  | PTuple l => l
  | PList l => l
  end.

Definition is_tuple {A} (s : pyseq A) : bool :=
  match s with
  | PTuple _ => true
  | PList _ => false
  end.

(** [s + t]: "can only concatenate list (not tuple) to list" and conversely. *)
Definition seq_add {A} (s t : pyseq A) : result (pyseq A) :=
  match s, t with
  | PTuple l, PTuple m => Ok (PTuple (l ++ m))
  | PList l, PList m => Ok (PList (l ++ m))
  | _, _ => Raise TypeError
  end.

(** ['\n'.join(seq)] *)
Definition newline : string := String (Ascii.ascii_of_nat 10) EmptyString.

Definition join (s : pyseq string) : string := String.concat newline (items s).

(** ** class V *)

Record V : Type := mkV { src : atom; rel : atom; dst : atom }.

Definition slots : list string := ["src"; "rel"; "dst"].

(** [V.__getattr__]: reached only for a name the instance does not have.  A
    slot name would index the tuple [__slots__] with a string; any other
    name is stored as the relation, and the edge itself is returned. *)
Definition V_getattr (self : V) (attr : string) : result V :=
  if existsb (String.eqb attr) slots then Raise TypeError
  else Ok (mkV (src self) (AStr attr) (dst self)).

(** [V.__call__(self, dst)] *)
Definition V_call (self : V) (d : atom) : V := mkV (src self) (rel self) d.

(** Everything a comparison or an index can be handed: [None], an integer, a
    string, a tuple or a list, a pattern, a slice, a range. *)
Inductive value : Type :=
| VAtom (a : atom)
| VSeq (s : pyseq atom)
| VEdge (e : V)
| VSlice (start stop step : value)
| VRange (start stop step : Z).

(** [V.__eq__] *)
Definition V_eq (self : V) (other : value) : bool :=
  match other with
  | VEdge o =>
      atom_eqb (src self) (src o) &&
      atom_eqb (rel self) (rel o) &&
      atom_eqb (dst self) (dst o)
  | _ => false
  end.

(** [V.__hash__]: the interpreter's [hash] applied to the tuple of the three
    fields. *)
Definition V_hash (py_hash : value -> Z) (self : V) : Z :=
  py_hash (VSeq (PTuple [src self; rel self; dst self])).

(** ** The statement builder, [graphlite.sql]

    The module is outside this file; [Query] uses four of its functions, each
    returning a statement and the tuple of its parameters. *)
Record StatementBuilder : Type := {
  forwards_relation : atom -> atom -> string * list atom;
  inverse_relation : atom -> atom -> string * list atom;
  compound_fw_query : atom -> string -> string * list atom;
  compound_iv_query : atom -> atom -> string -> string * list atom
}.

(** ** The backend session

    [db.cursor()] followed by [cursor.execute(statement, params)] either
    raises or gives the rows, each a sequence of columns.  The session
    answers a statement with a fixed sequence of rows; each execution is
    recorded in a log. *)
Record Session : Type := {
  execute : string -> list atom -> result (list (list atom))
}.

Inductive event : Type :=
| Executed (statement : string) (params : list atom).

(** ** itertools.islice *)

Definition maxsize : Z := 2 ^ 63 - 1.

(** [Py_ssize_t] arithmetic: a sum that leaves the range of a signed 64-bit
    integer wraps around. *)
Definition wrap (z : Z) : Z := (z + 2 ^ 63) mod 2 ^ 64 - 2 ^ 63.

(** An argument of [islice] is [None] or an integer between [lo] and
    [sys.maxsize]; anything else is a [ValueError]. *)
Definition islice_arg (lo : Z) (v : value) : result (option Z) :=
  match v with
  | VAtom ANone => Ok None
  | VAtom (AInt z) =>
      if (lo <=? z) && (z <=? maxsize) then Ok (Some z)
      else Raise ValueError
  | _ => Raise ValueError
  end.

(** The fields of an [islice] object, each a [Py_ssize_t]: the index of the
    next element to yield, the stop ([-1] when there is none) and the
    step. *)
Record islice_t : Type := {
  i_next : Z;
  i_stop : Z;
  i_step : Z
}.

Definition islice_new (start stop step : value) : result islice_t :=
  a <- islice_arg 0 start ;;
  b <- islice_arg 0 stop ;;
  c <- islice_arg 1 step ;;
  Ok {| i_next := match a with Some z => z | None => 0 end;
        i_stop := match b with Some z => z | None => -1 end;
        i_step := match c with Some z => z | None => 1 end |}.

(** [stop != -1 && cnt >= stop] *)
Definition stopped (stop cnt : Z) : bool :=
  negb (stop =? -1) && (stop <=? cnt).

(** The index of the next element after one has been yielded:
    [next += step], and when the sum wrapped around or went past the stop,
    [next = stop]. *)
Definition advance (stop next step : Z) : Z :=
  let next' := wrap (next + step) in
  if (next' <? next) || (negb (stop =? -1) && (stop <? next')) then stop
  else next'.

(** The elements an [islice] object yields when it is drained.  [source] is
    what the underlying iterator yields, an exception ending it; [cnt] counts
    the elements taken from it and [next] is the index of the next element to
    yield.  Elements before [next] are taken and dropped; the iterator is
    not touched once [stop] is reached.  ([cnt] is left unbounded: it would
    take 2^63 elements for it to wrap.) *)
Fixpoint islice_run {A} (source : list (result A)) (cnt next stop step : Z)
  : result (list A) :=
  if cnt <? next then
    match source with
    | [] => Ok []
    | Raise e :: _ => Raise e
    | Ok _ :: rest => islice_run rest (cnt + 1) next stop step
    end
  else if stopped stop cnt then Ok []
  else
    match source with
    | [] => Ok []
    | Raise e :: _ => Raise e
    | Ok x :: rest =>
        fmap (cons x) (islice_run rest (cnt + 1) (advance stop next step) stop step)
    end.

(** [list(islice(source, start, stop, step))] *)
Definition islice_list {A} (source : list (result A)) (s : islice_t) : result (list A) :=
  islice_run source 0 (i_next s) (i_stop s) (i_step s).

(** ** class Query *)

(** [sql] is a tuple when it comes from the constructor's default or from
    [derived], and a list when it comes from [traverse].  [params] is only
    ever built from [tuple()] and the builder's tuples by concatenation. *)
Record Query : Type := mkQuery {
  db : Session;
  sql : pyseq string;
  params : list atom
}.

(** [Query(db)], with [sql=tuple()] and [params=tuple()] *)
Definition Query_init (d : Session) : Query := mkQuery d (PTuple []) [].

(** The statement [__iter__] and [traverse] build: ['\n'.join(self.sql)] *)
Definition statement (self : Query) : string := join (sql self).

(** [item[0]] *)
Definition first_column (item : list atom) : result atom :=
  match item with
  | [] => Raise IndexError
  | x :: _ => Ok x
  end.

(** What the generator of [__iter__] yields, one entry per [next]: the first
    column of each row, an exception ending the sequence. *)
Definition yielded (self : Query) : list (result atom) :=
  match execute (db self) (statement self) (params self) with
  | Raise e => [Raise e]
  | Ok rows => map first_column rows
  end.

(** [__iter__], started: the statement is executed once on a fresh cursor. *)
Definition iter (self : Query) (log : list event) : list (result atom) * list event :=
  (yielded self, log ++ [Executed (statement self) (params self)]).

(** [list(source)] *)
Fixpoint drain {A} (source : list (result A)) : result (list A) :=
  match source with
  | [] => Ok []
  | Raise e :: _ => Raise e
  | Ok x :: rest => fmap (cons x) (drain rest)
  end.

(** [sum(1 for __ in source)], from the accumulator [acc] *)
Fixpoint sum_ones {A} (source : list (result A)) (acc : Z) : result Z :=
  match source with
  | [] => Ok acc
  | Raise e :: _ => Raise e
  | Ok _ :: rest => sum_ones rest (acc + 1)
  end.

(** [derived(self, statement, params=tuple())] *)
Definition derived (self : Query) (stmt : string) (ps : list atom) : result Query :=
  s <- seq_add (sql self) (PTuple [stmt]) ;;
  Ok (mkQuery (db self) s (params self ++ ps)).

Section WithBuilder.

Variable SQL : StatementBuilder.

(** [__call__(self, edge)] *)
Definition call (self : Query) (edge : V) : result Query :=
  let '(s, r, d) := (src edge, rel edge, dst edge) in
  let '(stmt, ps) :=
    if is_None d then forwards_relation SQL s r
    else inverse_relation SQL d r in
  derived self stmt ps.

(** [traverse(self, edge)] *)
Definition traverse (self : Query) (edge : V) : result Query :=
  let query := join (sql self) in
  let '(r, d) := (rel edge, dst edge) in
  let '(stmt, ps) :=
    if is_None d then compound_fw_query SQL r query
    else compound_iv_query SQL d r query in
  let instance := Query_init (db self) in
  Ok (mkQuery (db instance) (PList [stmt]) (params self ++ ps)).

End WithBuilder.

(** The three set-operator properties *)
Definition intersection (self : Query) : result Query := derived self "INTERSECT" [].

Definition difference (self : Query) : result Query := derived self "EXCEPT" [].

Definition union (self : Query) : result Query := derived self "UNION" [].

(** [count(self)] *)
Definition count (self : Query) (log : list event) : result Z * list event :=
  let '(source, log') := iter self log in
  (sum_ones source 0, log').

(** Attribute lookup [value.name] for the three names [__getitem__] asks
    for.  A slice carries them, and so does a range, as integers; an edge
    answers any unknown name through [V_getattr]; the other values have no
    such attribute. *)
Definition getattr (v : value) (name : string) : result value :=
  match v with
  | VSlice start stop step =>
      if String.eqb name "start" then Ok start
      else if String.eqb name "stop" then Ok stop
      else if String.eqb name "step" then Ok step
      else Raise AttributeError
  | VRange start stop step =>
      if String.eqb name "start" then Ok (VAtom (AInt start))
      else if String.eqb name "stop" then Ok (VAtom (AInt stop))
      else if String.eqb name "step" then Ok (VAtom (AInt step))
      else Raise AttributeError
  | VEdge e => fmap VEdge (V_getattr e name)
  | _ => Raise AttributeError
  end.

(** [__getitem__(self, value)]: the [islice] object over the query's
    iterator. *)
Definition getitem (self : Query) (v : value) : result (Query * islice_t) :=
  start <- getattr v "start" ;;
  stop <- getattr v "stop" ;;
  step <- getattr v "step" ;;
  s <- islice_new start stop step ;;
  Ok (self, s).

(** [list(self[value])] *)
Definition getitem_list (self : Query) (v : value) : result (list atom) :=
  '(q, s) <- getitem self v ;;
  islice_list (yielded q) s.

(** [isinstance(v, slice)] *)
Definition is_slice (v : value) : bool :=
  match v with
  | VSlice _ _ _ => true
  | _ => false
  end.

(** A slice bound as a Python value: [None] or an integer. *)
Definition bound (b : option Z) : value :=
  match b with
  | None => VAtom ANone
  | Some z => VAtom (AInt z)
  end.

(** The bounds [islice] takes: unset or within [0 .. sys.maxsize]. *)
Definition islice_bound (b : option Z) : Prop :=
  match b with
  | None => True
  | Some z => 0 <= z <= maxsize
  end.

(** The steps [islice] takes: unset or within [1 .. sys.maxsize]. *)
Definition islice_step (b : option Z) : Prop :=
  match b with
  | None => True
  | Some z => 1 <= z <= maxsize
  end.

(** Without a stop, [islice] follows the step only while the index stays
    within [sys.maxsize]: over [len] elements, a step with
    [len + step <= sys.maxsize + 1] never takes it further. *)
Definition islice_in_range (len : Z) (stop step : option Z) : Prop :=
  match stop, step with
  | None, Some s => len + s <= maxsize + 1
  | _, _ => True
  end.

(** ** Slicing as the specification words it

    "Standard slice-range semantics (clamped indices, step <> 0 required)",
    half-open: the reading of a slice over a sequence of [len] elements that
    Python's own sequences use.  A negative bound counts from the end, bounds
    are clamped to the sequence, and a negative step walks backwards. *)
Definition slice_indices (len : Z) (start stop step : option Z) : result (Z * Z * Z) :=
  let st := match step with Some z => z | None => 1 end in
  if st =? 0 then Raise ValueError
  else
    let lower := if st <? 0 then -1 else 0 in
    let upper := if st <? 0 then len - 1 else len in
    let clamped z := if z <? 0 then Z.max (z + len) lower else Z.min z upper in
    let lo := match start with
              | Some z => clamped z
              | None => if st <? 0 then upper else lower
              end in
    let hi := match stop with
              | Some z => clamped z
              | None => if st <? 0 then lower else upper
              end in
    Ok (lo, hi, st).

(** The number of indices [lo, lo + st, ...] before [hi]. *)
Definition range_length (lo hi st : Z) : Z :=
  if 0 <? st then (if lo <? hi then (hi - lo - 1) / st + 1 else 0)
  else (if hi <? lo then (lo - hi - 1) / (- st) + 1 else 0).

(** The elements of [xs] at the given positions, in that order. *)
Definition select {A} (xs : list A) (positions : list nat) : list A :=
  flat_map (fun i => match nth_error xs i with Some x => [x] | None => [] end)
           positions.

(** [xs[start:stop:step]] *)
Definition spec_slice {A} (xs : list A) (start stop step : option Z) : result (list A) :=
  '(lo, hi, st) <- slice_indices (Z.of_nat (List.length xs)) start stop step ;;
  Ok (select xs (map (fun k => Z.to_nat (lo + Z.of_nat k * st))
                     (seq 0 (Z.to_nat (range_length lo hi st))))).

(** ** Concrete collaborators *)

(** Modelled from the spec: [graphlite/sql.py], the statement builder, is
    not part of this file's source.  The spec gives its interface only (four
    pure functions, each returning one parametrized fragment and its
    parameters); this instance fixes some statement text so that the
    operations can be evaluated on concrete inputs.  The general statements
    below hold for every builder. *)
Definition sample_sql : StatementBuilder := {|
  forwards_relation := fun s r =>
    ("SELECT dst FROM edge WHERE src = ? AND rel IS ?", [s; r]);
  inverse_relation := fun d r =>
    ("SELECT src FROM edge WHERE dst = ? AND rel IS ?", [d; r]);
  compound_fw_query := fun r query =>
    (("SELECT dst FROM edge WHERE rel IS ? AND src IN (" ++ query ++ ")")%string, [r]);
  compound_iv_query := fun d r query =>
    (("SELECT src FROM edge WHERE dst = ? AND rel IS ? AND src IN (" ++ query ++ ")")%string,
     [d; r])
|}.

(** A session whose every statement returns the same three one-column rows. *)
Definition sample_db : Session := {|
  execute := fun _ _ => Ok [[AInt 10]; [AInt 20]; [AInt 30]]
|}.

(** A session on which every execution fails. *)
Definition failing_db : Session := {|
  execute := fun _ _ => Raise BackendError
|}.

Definition knows : atom := AStr "knows".

(** ** More of class V *)

(** [V()], every field left at its default *)
Definition V_init : V := mkV ANone ANone ANone.

(** ['%s' % x] *)
Definition str (a : atom) : string :=
  match a with
  | ANone => "None"
  | AInt z => NilZero.string_of_int (Z.to_int z)
  | AStr s => s
  end.

(** [V.__repr__] *)
Definition V_repr (self : V) : string :=
  ("(" ++ (if is_None (src self) then "*" else str (src self))
   ++ ")-[" ++ (if is_None (rel self) then "*" else ":" ++ str (rel self))
   ++ "]->(" ++ (if is_None (dst self) then "*" else str (dst self))
   ++ ")")%string.

(** [__getattr__] and [__call__] assign to [self] and return it.  Patterns
    live in a store, and a variable holds a reference into it. *)
Definition ref : Type := nat.

Definition store : Type := ref -> V.

Definition assign (h : store) (l : ref) (v : V) : store :=
  fun l' => if Nat.eqb l' l then v else h l'.

(** [self.<attr>] through a reference: the object is updated in place and
    the same reference comes back. *)
Definition V_getattr_in (h : store) (self : ref) (attr : string) : result (ref * store) :=
  v <- V_getattr (h self) attr ;;
  Ok (self, assign h self v).

(** [self(dst)] through a reference *)
Definition V_call_in (h : store) (self : ref) (d : atom) : ref * store :=
  (self, assign h self (V_call (h self) d)).

(** ** Fragments and placeholders *)

(** The fragment [__call__] asks the builder for. *)
Definition lookup_fragment (SQL : StatementBuilder) (e : V) : string * list atom :=
  if is_None (dst e) then forwards_relation SQL (src e) (rel e)
  else inverse_relation SQL (dst e) (rel e).

(** The fragment [traverse] asks the builder for, over the statement
    [query]. *)
Definition traversal_fragment (SQL : StatementBuilder) (e : V) (query : string)
  : string * list atom :=
  if is_None (dst e) then compound_fw_query SQL (rel e) query
  else compound_iv_query SQL (dst e) (rel e) query.



(** [isinstance(v, range)] *)
Definition is_range (v : value) : bool :=
  match v with
  | VRange _ _ _ => true
  | _ => false
  end.

(** The names the body of class [V] defines. *)
Definition V_members : list string :=
  ["__slots__"; "__init__"; "__getattr__"; "__call__"; "__repr__"; "__eq__";
   "__hash__"].

(** The names ordinary lookup finds on a pattern: its slots, the members of
    its class, and whatever comes with every class and with [object]
    ([__class__], [__doc__], [__ne__], ...), given by [inherited]. *)
Definition V_has (inherited : string -> bool) (name : string) : bool :=
  existsb (String.eqb name) slots
  || existsb (String.eqb name) V_members
  || inherited name.

(** What [self.<name>] evaluates to. *)
Inductive attribute : Type :=
| Field (a : atom)
| Member (name : string)
| Rebound (e : V).

(** [self.<name>]: a slot gives its field and any other name the pattern
    has gives that member; only a name it does not have reaches
    [__getattr__]. *)
Definition V_dot (inherited : string -> bool) (self : V) (name : string)
  : result attribute :=
  if String.eqb name "src" then Ok (Field (src self))
  else if String.eqb name "rel" then Ok (Field (rel self))
  else if String.eqb name "dst" then Ok (Field (dst self))
  else if V_has inherited name then Ok (Member name)
  else fmap Rebound (V_getattr self name).

(** What [islice] takes as a bound or a step: [None] or an integer. *)
Definition is_index (v : value) : bool :=
  match v with
  | VAtom ANone => true
  | VAtom (AInt _) => true
  | _ => false
  end.

(** * Properties *)

(** ** Basic facts about the run-time model *)

Lemma atom_eqb_eq (a b : atom) : atom_eqb a b = true <-> a = b.
Proof.
  destruct a, b; simpl; split; intro H; try discriminate; try reflexivity.
  - apply Z.eqb_eq in H. now subst.
  - injection H as ->. apply Z.eqb_refl.
  - apply String.eqb_eq in H. now subst.
  - injection H as ->. apply String.eqb_refl.
Qed.

Lemma is_None_false (a : atom) : is_None a = false <-> a <> ANone.
Proof. destruct a; simpl; split; congruence. Qed.

Lemma drain_map_Ok {A} (xs : list A) : drain (map Ok xs) = Ok xs.
Proof. induction xs as [| x xs IH]; simpl; [reflexivity | now rewrite IH]. Qed.

Lemma drain_Ok_inv {A} (source : list (result A)) (xs : list A) :
  drain source = Ok xs -> source = map Ok xs.
Proof.
  revert xs. induction source as [| [x | e] rest IH]; simpl; intros xs H.
  - injection H as <-. reflexivity.
  - destruct (drain rest) as [ys | e]; simpl in H; [| discriminate].
    injection H as <-. simpl. f_equal. now apply IH.
  - discriminate.
Qed.

(** [derived] on a query whose fragments are a tuple. *)
Lemma derived_tuple (d : Session) (fs : list string) (ps : list atom)
    (f : string) (ps' : list atom) :
  derived (mkQuery d (PTuple fs) ps) f ps'
  = Ok (mkQuery d (PTuple (fs ++ [f])) (ps ++ ps')).
Proof. reflexivity. Qed.

(** [derived] on a query whose fragments are a list. *)
Lemma derived_list (d : Session) (fs : list string) (ps : list atom)
    (f : string) (ps' : list atom) :
  derived (mkQuery d (PList fs) ps) f ps' = Raise TypeError.
Proof. reflexivity. Qed.

Lemma derived_Ok_inv (q q' : Query) (f : string) (ps : list atom) :
  derived q f ps = Ok q' ->
  exists fs, sql q = PTuple fs /\
             q' = mkQuery (db q) (PTuple (fs ++ [f])) (params q ++ ps).
Proof.
  destruct q as [d [fs | fs] p]; unfold derived; simpl; intro H.
  - exists fs. split; [reflexivity | congruence].
  - discriminate.
Qed.

(** [traverse] always returns, with its one fragment in a list. *)
Lemma traverse_Ok (SQL : StatementBuilder) (q : Query) (e : V) :
  let frag := if is_None (dst e)
              then compound_fw_query SQL (rel e) (join (sql q))
              else compound_iv_query SQL (dst e) (rel e) (join (sql q)) in
  traverse SQL q e = Ok (mkQuery (db q) (PList [fst frag]) (params q ++ snd frag)).
Proof.
  unfold traverse. simpl.
  now destruct (if is_None (dst e) then _ else _) as [stmt ps].
Qed.

(** ** Applying an edge pattern: direction inference *)

Section Direction.

Variable SQL : StatementBuilder.

(** C1.  Direction inference of [__call__]: when the pattern's destination is
    unbound the result is [derived] from the forward lookup built from
    (source, relation); when it is bound, whatever the source, the result is
    [derived] from the inverse lookup built from (destination, relation).
    The destination is unbound or bound, so exactly one branch applies; on a
    query whose fragments are a tuple the fragment and its parameters are
    appended. *)
Theorem call_direction (q : Query) (e : V) :
  (dst e = ANone ->
     call SQL q e = derived q (fst (forwards_relation SQL (src e) (rel e)))
                              (snd (forwards_relation SQL (src e) (rel e)))) /\
  (dst e <> ANone ->
     call SQL q e = derived q (fst (inverse_relation SQL (dst e) (rel e)))
                              (snd (inverse_relation SQL (dst e) (rel e)))) /\
  (forall d fs ps,
     q = mkQuery d (PTuple fs) ps ->
     call SQL q e =
       let frag := if is_None (dst e)
                   then forwards_relation SQL (src e) (rel e)
                   else inverse_relation SQL (dst e) (rel e) in
       Ok (mkQuery d (PTuple (fs ++ [fst frag])) (ps ++ snd frag))).
Proof.
  unfold call. repeat split.
  - intros ->. simpl. now destruct (forwards_relation SQL (src e) (rel e)).
  - intros H. apply is_None_false in H. rewrite H.
    now destruct (inverse_relation SQL (dst e) (rel e)).
  - intros d fs ps ->. cbv zeta.
    destruct (if is_None (dst e) then _ else _) as [stmt ps']. reflexivity.
Qed.

End Direction.

Lemma call_direction_witness :
  let q := Query_init sample_db in
  call sample_sql q (mkV (AInt 1) knows ANone)
    = derived q "SELECT dst FROM edge WHERE src = ? AND rel IS ?" [AInt 1; knows] /\
  call sample_sql q (mkV (AInt 1) knows (AInt 2))
    = derived q "SELECT src FROM edge WHERE dst = ? AND rel IS ?" [AInt 2; knows] /\
  call sample_sql q (mkV ANone knows (AInt 2))
    = Ok (mkQuery sample_db
            (PTuple ["SELECT src FROM edge WHERE dst = ? AND rel IS ?"])
            [AInt 2; knows]).
Proof.
  intro q. split; [| split].
  - apply (proj1 (call_direction sample_sql q (mkV (AInt 1) knows ANone))).
    reflexivity.
  - apply (proj1 (proj2 (call_direction sample_sql q (mkV (AInt 1) knows (AInt 2))))).
    simpl. discriminate.
  - apply (proj2 (proj2 (call_direction sample_sql q (mkV ANone knows (AInt 2))))
             sample_db [] []).
    reflexivity.
Defined.

(** ** Traversal *)

(** C2.  Traversal folding: [traverse] returns a query with exactly one
    fragment, the compound forward traversal of (relation, joined statement)
    when the destination is unbound and the compound inverse traversal of
    (destination, relation, joined statement) otherwise; its parameters are
    the receiver's followed by the fragment's; the pattern's source plays no
    part. *)
Theorem traverse_folds (SQL : StatementBuilder) (q : Query) (e : V) :
  let frag := match dst e with
              | ANone => compound_fw_query SQL (rel e) (join (sql q))
              | d => compound_iv_query SQL d (rel e) (join (sql q))
              end in
  traverse SQL q e = Ok (mkQuery (db q) (PList [fst frag]) (params q ++ snd frag)) /\
  (exists q', traverse SQL q e = Ok q' /\ List.length (items (sql q')) = 1%nat) /\
  (forall s',traverse SQL q (mkV s' (rel e) (dst e)) = traverse SQL q e).
Proof.
  intro frag.
  assert (E : traverse SQL q e
              = Ok (mkQuery (db q) (PList [fst frag]) (params q ++ snd frag))).
  { rewrite traverse_Ok. unfold frag. now destruct (dst e). }
  repeat split.
  - exact E.
  - eexists. split; [exact E | reflexivity].
Qed.

(** ** Derivation *)

(** C3, on the code: a query returned by [traverse] keeps its fragment in a
    list, and [derived] on it raises instead of returning the query with the
    fragment appended. *)
Theorem traversed_query_refuses_derived :
  let q := Query_init sample_db in
  exists q',
    traverse sample_sql q (mkV ANone knows ANone) = Ok q' /\
    derived q' "INTERSECT" [] = Raise TypeError.
Proof. eexists. split; reflexivity. Qed.

(** ** Patterns with no endpoint bound *)

(** C4, as stated, fails: neither operation raises on a pattern whose source
    and destination are both unbound. *)
Lemma unbound_pattern_not_rejected :
  let q := Query_init sample_db in
  let e := mkV ANone knows ANone in
  ~ ((exists err, call sample_sql q e = Raise err) \/
     (exists err, traverse sample_sql q e = Raise err)).
Proof. intros q e [[err H] | [err H]]; discriminate H. Qed.

(** C4, amended.  No check of the endpoints is made: on a pattern with both
    endpoints unbound [__call__] takes the forward branch with the unbound
    source, and [traverse] returns the single-fragment compound forward
    traversal. *)
Theorem unbound_pattern_forward (SQL : StatementBuilder) (q : Query) (r : atom) :
  call SQL q (mkV ANone r ANone)
    = derived q (fst (forwards_relation SQL ANone r))
                (snd (forwards_relation SQL ANone r)) /\
  (forall d fs ps,
     call SQL (mkQuery d (PTuple fs) ps) (mkV ANone r ANone)
       = Ok (mkQuery d (PTuple (fs ++ [fst (forwards_relation SQL ANone r)]))
               (ps ++ snd (forwards_relation SQL ANone r)))) /\
  traverse SQL q (mkV ANone r ANone)
    = Ok (mkQuery (db q) (PList [fst (compound_fw_query SQL r (statement q))])
            (params q ++ snd (compound_fw_query SQL r (statement q)))).
Proof.
  unfold call, traverse, statement; simpl. repeat split.
  - now destruct (forwards_relation SQL ANone r).
  - intros d fs ps. now destruct (forwards_relation SQL ANone r).
  - now destruct (compound_fw_query SQL r (join (sql q))).
Qed.

(** ** Set operators *)

(** The three set-operator properties are [derived] applied to the keyword
    alone: the keyword is added to the fragments by Python's [+] with the
    one-element tuple, and the parameters are the receiver's. *)
Theorem set_operators_derived (q : Query) :
  (intersection q = derived q "INTERSECT" [] /\
   union q = derived q "UNION" [] /\
   difference q = derived q "EXCEPT" []) /\
  (intersection q
     = (s <- seq_add (sql q) (PTuple ["INTERSECT"]) ;; Ok (mkQuery (db q) s (params q))) /\
   union q
     = (s <- seq_add (sql q) (PTuple ["UNION"]) ;; Ok (mkQuery (db q) s (params q))) /\
   difference q
     = (s <- seq_add (sql q) (PTuple ["EXCEPT"]) ;; Ok (mkQuery (db q) s (params q)))) /\
  (forall d fs ps,
     q = mkQuery d (PTuple fs) ps ->
     intersection q = Ok (mkQuery d (PTuple (fs ++ ["INTERSECT"])) ps) /\
     union q = Ok (mkQuery d (PTuple (fs ++ ["UNION"])) ps) /\
     difference q = Ok (mkQuery d (PTuple (fs ++ ["EXCEPT"])) ps)).
Proof.
  split; [now repeat split |].
  split.
  - unfold intersection, union, difference, derived.
    rewrite app_nil_r. now repeat split.
  - intros d fs ps ->.
    unfold intersection, union, difference.
    rewrite !derived_tuple, app_nil_r. now repeat split.
Qed.

Lemma set_operators_derived_witness :
  let q := mkQuery sample_db (PTuple ["SELECT 1"]) [AInt 7] in
  intersection q = Ok (mkQuery sample_db (PTuple ["SELECT 1"; "INTERSECT"]) [AInt 7]) /\
  union q = Ok (mkQuery sample_db (PTuple ["SELECT 1"; "UNION"]) [AInt 7]) /\
  difference q = Ok (mkQuery sample_db (PTuple ["SELECT 1"; "EXCEPT"]) [AInt 7]).
Proof.
  intro q.
  apply (proj2 (proj2 (set_operators_derived q)) sample_db ["SELECT 1"] [AInt 7]).
  reflexivity.
Defined.

(** C5, on the code: on a query returned by [traverse] none of the three
    set-operator properties appends its keyword; each raises, the fragments
    being a list to which the one-element tuple is added. *)
Theorem traversed_query_refuses_set_operators :
  let q := Query_init sample_db in
  exists q',
    traverse sample_sql q (mkV ANone knows ANone) = Ok q' /\
    intersection q' = Raise TypeError /\
    union q' = Raise TypeError /\
    difference q' = Raise TypeError.
Proof. eexists. repeat split. Qed.

(** ** Equality and hashing of patterns *)

Lemma V_eq_iff (p p' : V) :
  V_eq p (VEdge p') = true <->
  src p = src p' /\ rel p = rel p' /\ dst p = dst p'.
Proof.
  unfold V_eq. rewrite !andb_true_iff, !atom_eqb_eq. tauto.
Qed.

(** C6.  A pattern equals a pattern built from the same triple, and their
    hashes agree; two patterns are equal exactly when their sources,
    relations and destinations are; compared with anything that is not a
    pattern the answer is [False], and no comparison raises ([V_eq] is a
    total function into [bool]). *)
Theorem V_eq_hash (py_hash : value -> Z) :
  (forall s r d,
     V_eq (mkV s r d) (VEdge (mkV s r d)) = true /\
     V_hash py_hash (mkV s r d) = V_hash py_hash (mkV s r d)) /\
  (forall p p',
     V_eq p (VEdge p') = true <->
     src p = src p' /\ rel p = rel p' /\ dst p = dst p') /\
  (forall p p', V_eq p (VEdge p') = true -> V_hash py_hash p = V_hash py_hash p') /\
  (forall p other, (forall p', other <> VEdge p') -> V_eq p other = false).
Proof.
  repeat split.
  - apply V_eq_iff. simpl. auto.
  - apply V_eq_iff in H. tauto.
  - apply V_eq_iff in H. tauto.
  - apply V_eq_iff in H. tauto.
  - intro H. now apply V_eq_iff.
  - intros p p' H. apply V_eq_iff in H. destruct H as (Hs & Hr & Hd).
    unfold V_hash. now rewrite Hs, Hr, Hd.
  - intros p other H. destruct other; try reflexivity.
    now contradiction (H e).
Qed.

Lemma V_eq_hash_witness :
  V_eq (mkV (AInt 1) knows ANone) (VAtom (AInt 1)) = false /\
  V_hash (fun _ => 0) (mkV (AInt 1) knows ANone)
    = V_hash (fun _ => 0) (V_call (mkV (AInt 1) knows (AInt 5)) ANone).
Proof.
  split.
  - apply (proj2 (proj2 (proj2 (V_eq_hash (fun _ => 0))))).
    intros p'. discriminate.
  - apply (proj1 (proj2 (proj2 (V_eq_hash (fun _ => 0))))).
    reflexivity.
Defined.

(** ** Indexing by the shape of the index *)

(** C8, as stated, fails: the code has no condition of its own for an index
    of the wrong shape.  An integer index fails in the lookup of [start], a
    pattern fails in [islice], so no one condition is raised by every index
    that is not a slice; and a range, which is not a slice, is accepted. *)
Lemma index_failures_differ :
  let q := Query_init sample_db in
  getitem q (VAtom (AInt 1)) = Raise AttributeError /\
  getitem q (VEdge (mkV (AInt 1) knows ANone)) = Raise ValueError /\
  getitem_list q (VRange 1 3 1) = Ok [AInt 20; AInt 30] /\
  ~ (exists unsupported : exn,
       forall v, is_slice v = false -> getitem q v = Raise unsupported).
Proof.
  intro q. repeat split.
  intros [unsupported H].
  pose proof (H (VAtom (AInt 1)) eq_refl) as H1.
  pose proof (H (VEdge (mkV (AInt 1) knows ANone)) eq_refl) as H2.
  change (Raise AttributeError = @Raise (Query * islice_t) unsupported) in H1.
  change (Raise ValueError = @Raise (Query * islice_t) unsupported) in H2.
  congruence.
Qed.

(** C8, amended.  Indexing a query with [None], an integer, a string, a
    tuple or a list raises [AttributeError], from the lookup of [start];
    indexing with a pattern raises [ValueError], the pattern answering the
    lookup with itself and [islice] refusing it.  The index is not asked to
    be a slice: a range is taken as the slice with its start, stop and step,
    and whatever is accepted carries these three attributes itself, as a
    slice or a range does. *)
Theorem getitem_by_shape (q : Query) :
  (forall a, getitem q (VAtom a) = Raise AttributeError) /\
  (forall s, getitem q (VSeq s) = Raise AttributeError) /\
  (forall e, getitem q (VEdge e) = Raise ValueError) /\
  (forall a b c,
     getitem q (VRange a b c)
     = getitem q (VSlice (VAtom (AInt a)) (VAtom (AInt b)) (VAtom (AInt c)))) /\
  (forall v r, getitem q v = Ok r -> is_slice v = true \/ is_range v = true).
Proof.
  repeat split.
  intros v r H. destruct v; try discriminate H; auto.
Qed.

Lemma getitem_by_shape_witness :
  is_slice (VRange 1 3 1) = true \/ is_range (VRange 1 3 1) = true.
Proof.
  apply (proj2 (proj2 (proj2 (proj2 (getitem_by_shape (Query_init sample_db)))))
           (VRange 1 3 1)
           (Query_init sample_db, {| i_next := 1; i_stop := 3; i_step := 1 |})).
  reflexivity.
Defined.

(** ** Counting *)

Lemma sum_ones_drain {A} (source : list (result A)) (acc : Z) :
  sum_ones source acc
  = fmap (fun xs => acc + Z.of_nat (List.length xs)) (drain source).
Proof.
  revert acc. induction source as [| [x | e] rest IH]; intro acc; simpl.
  - unfold fmap. simpl. f_equal. lia.
  - rewrite IH. destruct (drain rest) as [xs | e]; unfold fmap; simpl;
      [f_equal; lia | reflexivity].
  - reflexivity.
Qed.

(** C9.  [count] is the number of elements a fresh iteration of the query
    produces (and raises when the iteration does); computing it executes the
    query's statement exactly once, and every row of that execution is
    counted. *)
Theorem count_iter (q : Query) (log : list event) :
  fst (count q log)
    = fmap (fun xs => Z.of_nat (List.length xs)) (drain (fst (iter q log))) /\
  snd (count q log) = log ++ [Executed (statement q) (params q)] /\
  snd (count q log) = snd (iter q log) /\
  (forall xs, yielded q = map Ok xs ->
     fst (count q log) = Ok (Z.of_nat (List.length xs))).
Proof.
  unfold count, iter; simpl. repeat split.
  - now rewrite sum_ones_drain.
  - intros xs ->. rewrite sum_ones_drain.
    now rewrite drain_map_Ok.
Qed.

Lemma count_iter_witness :
  fst (count (Query_init sample_db) []) = Ok 3.
Proof.
  apply (proj2 (proj2 (proj2 (count_iter (Query_init sample_db) [])))
           [AInt 10; AInt 20; AInt 30]).
  reflexivity.
Defined.

(** ** Deriving from a traversal *)

(** C10.  After [traverse], every operation that appends a fragment raises
    [TypeError]: [traverse] stores its fragment in a list and [derived] adds
    a one-element tuple to it.  A query made by the constructor with a tuple
    of fragments, or returned by [derived], has a tuple of fragments, and
    [derived] returns on it. *)
Theorem derived_after_traverse (SQL : StatementBuilder) (q : Query) (e : V) :
  (forall f ps, (q' <- traverse SQL q e ;; derived q' f ps) = Raise TypeError) /\
  (forall e', (q' <- traverse SQL q e ;; call SQL q' e') = Raise TypeError) /\
  (q' <- traverse SQL q e ;; intersection q') = Raise TypeError /\
  (q' <- traverse SQL q e ;; union q') = Raise TypeError /\
  (q' <- traverse SQL q e ;; difference q') = Raise TypeError /\
  (forall d fs ps f ps',
     derived (mkQuery d (PTuple fs) ps) f ps'
       = Ok (mkQuery d (PTuple (fs ++ [f])) (ps ++ ps'))) /\
  (forall f ps q1,
     derived q f ps = Ok q1 ->
     forall f' ps', exists q2, derived q1 f' ps' = Ok q2) /\
  (exists q', traverse SQL q e = Ok q' /\ is_tuple (sql q') = false).
Proof.
  rewrite traverse_Ok. simpl.
  repeat split.
  - intros e'. unfold call.
    destruct (if is_None (dst e') then _ else _) as [stmt ps]. reflexivity.
  - intros f ps q1 H f' ps'.
    apply derived_Ok_inv in H. destruct H as (gs & _ & ->).
    eexists. apply derived_tuple.
  - eexists. split; reflexivity.
Qed.

Lemma derived_after_traverse_witness :
  exists q2,
    derived (mkQuery sample_db (PTuple ["SELECT 1"; "UNION"]) []) "SELECT 2" [] = Ok q2.
Proof.
  apply (proj1 (proj2 (proj2 (proj2 (proj2 (proj2 (proj2
           (derived_after_traverse sample_sql (mkQuery sample_db (PTuple ["SELECT 1"]) [])
              (mkV ANone knows ANone))))))))
           "UNION" [] (mkQuery sample_db (PTuple ["SELECT 1"; "UNION"]) [])).
  reflexivity.
Defined.

(** ** Slicing *)

(** The standard reading on a four-element sequence. *)
Example spec_slice_examples :
  spec_slice [10; 20; 30; 40] (Some 1) (Some 3) None = Ok [20; 30] /\
  spec_slice [10; 20; 30; 40] (Some (-1)) None None = Ok [40] /\
  spec_slice [10; 20; 30; 40] None None (Some (-1)) = Ok [40; 30; 20; 10] /\
  spec_slice [10; 20; 30; 40] (Some (-3)) (Some 100) (Some 2) = Ok [20; 40] /\
  spec_slice [10; 20; 30; 40] (Some 3) (Some 0) (Some (-2)) = Ok [40; 20] /\
  spec_slice [10; 20; 30; 40] (Some 3) (Some 1) None = Ok [] /\
  spec_slice [10; 20; 30; 40] None None (Some 0) = Raise ValueError.
Proof. repeat split. Qed.

(** [__getitem__] on a query that yields 10, 20, 30. *)
Example getitem_examples :
  let q := Query_init sample_db in
  getitem_list q (VSlice (bound (Some 1)) (bound (Some 3)) (bound None))
    = Ok [AInt 20; AInt 30] /\
  getitem_list q (VSlice (bound (Some 0)) (bound None) (bound (Some 2)))
    = Ok [AInt 10; AInt 30] /\
  getitem_list q (VSlice (bound (Some 5)) (bound (Some 2)) (bound (Some 2)))
    = Ok [] /\
  getitem_list q (VSlice (bound None) (bound None) (bound (Some 0)))
    = Raise ValueError.
Proof. repeat split. Qed.

(** The iterator is advanced only when an element is needed: with a stop of
    0 the statement is not executed, and a failing session goes unnoticed;
    with a start of 1 the first element is asked for and the failure
    surfaces. *)
Example getitem_lazy :
  let q := Query_init failing_db in
  getitem_list q (VSlice (bound None) (bound (Some 0)) (bound None)) = Ok [] /\
  getitem_list q (VSlice (bound (Some 1)) (bound (Some 1)) (bound None))
    = Raise BackendError.
Proof. repeat split. Qed.

Lemma wrap_small (z : Z) : - 2 ^ 63 <= z <= maxsize -> wrap z = z.
Proof.
  unfold wrap, maxsize. intros H.
  rewrite Z.mod_small by lia. lia.
Qed.

Lemma wrap_over (z : Z) : maxsize < z <= 2 * maxsize + 1 -> wrap z = z - 2 ^ 64.
Proof.
  unfold wrap, maxsize. intros H.
  replace (z + 2 ^ 63) with (z + 2 ^ 63 - 2 ^ 64 + 1 * 2 ^ 64) by lia.
  rewrite Z.mod_add by lia.
  rewrite Z.mod_small by lia. lia.
Qed.


(** As long as [next + step] does not wrap around with the stop unset, the
    next index is [next + step], cut down to the stop. *)
Lemma advance_cases (stop next step : Z) :
  0 <= next <= maxsize -> 1 <= step <= maxsize ->
  stop = -1 \/ 0 <= stop <= maxsize ->
  (stop = -1 -> next + step <= maxsize) ->
  (stop <> -1 /\ stop < next + step /\ advance stop next step = stop) \/
  ((stop = -1 \/ next + step <= stop) /\ next + step <= maxsize /\
   advance stop next step = next + step).
Proof.
  intros Hn Hs Hstop Hov. unfold advance.
  destruct (Z.le_gt_cases (next + step) maxsize) as [Hle | Hgt].
  - rewrite wrap_small by (unfold maxsize in *; lia).
    replace (next + step <? next) with false by (symmetry; apply Z.ltb_ge; lia).
    simpl.
    destruct (stop =? -1) eqn:E1; simpl.
    + apply Z.eqb_eq in E1. right. auto.
    + apply Z.eqb_neq in E1.
      destruct (stop <? next + step) eqn:E2.
      * apply Z.ltb_lt in E2. left. auto.
      * apply Z.ltb_ge in E2. right. auto.
  - assert (Hne : stop <> -1) by (intro E; specialize (Hov E); lia).
    rewrite wrap_over by (unfold maxsize in *; lia).
    replace (next + step - 2 ^ 64 <? next) with true
      by (symmetry; apply Z.ltb_lt; unfold maxsize in *; lia).
    simpl. left. repeat split; [exact Hne | lia].
Qed.

Lemma stopped_mono (stop n m : Z) :
  stopped stop n = true -> n <= m -> stopped stop m = true.
Proof.
  unfold stopped. rewrite !andb_true_iff, !Z.leb_le. intuition lia.
Qed.

Lemma stopped_false (stop n : Z) :
  stopped stop n = false -> stop = -1 \/ n < stop.
Proof.
  unfold stopped. destruct (stop =? -1) eqn:E; simpl.
  - apply Z.eqb_eq in E. auto.
  - intros H. apply Z.leb_gt in H. auto.
Qed.

(** On a source that raises nowhere, [islice_run] returns, and its [k]-th
    element is the source's element of index [next + k * step], as long as
    that index stays before [stop].  Without a stop this needs the index to
    stay within [sys.maxsize]; with one, a sum that wraps around is cut
    down to the stop like any sum past it. *)
Lemma islice_run_nth {A} (xs : list A) (stop step : Z) :
  1 <= step <= maxsize ->
  stop = -1 \/ 0 <= stop <= maxsize ->
  forall cnt next : Z,
    0 <= cnt <= next -> next <= maxsize ->
    (stop = -1 -> cnt + Z.of_nat (List.length xs) + step <= maxsize + 1) ->
    exists ys,
      islice_run (map Ok xs) cnt next stop step = Ok ys /\
      forall k : nat,
        nth_error ys k
        = if stopped stop (next + Z.of_nat k * step) then None
          else nth_error xs (Z.to_nat (next - cnt + Z.of_nat k * step)).
Proof.
  intros Hstep Hstop.
  induction xs as [| x xs IH]; intros cnt next Hle Hmax Hov.
  - exists []. split.
    + simpl. destruct (cnt <? next); [reflexivity |].
      now destruct (stopped stop cnt).
    + intros k. rewrite !nth_error_nil. now destruct (stopped _ _).
  - simpl map. simpl islice_run. simpl List.length in Hov.
    rewrite Nat2Z.inj_succ in Hov.
    destruct (cnt <? next) eqn:Hlt.
    + apply Z.ltb_lt in Hlt.
      destruct (IH (cnt + 1) next) as (ys & E & N); [lia | lia | lia |].
      exists ys. split; [exact E |].
      intros k. rewrite N.
      assert (0 <= Z.of_nat k * step) by nia.
      replace (Z.to_nat (next - cnt + Z.of_nat k * step))
        with (S (Z.to_nat (next - (cnt + 1) + Z.of_nat k * step))) by lia.
      reflexivity.
    + apply Z.ltb_ge in Hlt. assert (cnt = next) by lia. subst cnt.
      destruct (stopped stop next) eqn:Hr.
      * exists []. split; [reflexivity |].
        intros k. rewrite nth_error_nil.
        assert (0 <= Z.of_nat k * step) by nia.
        now rewrite (stopped_mono stop next (next + Z.of_nat k * step) Hr) by lia.
      * pose proof (stopped_false stop next Hr) as Hsf.
        destruct (advance_cases stop next step) as [(Hne & Hlts & Ea) | (Hin & Hle' & Ea)];
          [lia | lia | exact Hstop | lia | |]; rewrite Ea.
        -- destruct (IH (next + 1) stop) as (ys & E & N); [lia | lia | lia |].
           exists (x :: ys). split; [now rewrite E |].
           intros [| k].
           ++ simpl. rewrite Z.add_0_r, Hr, Z.sub_diag. reflexivity.
           ++ simpl nth_error at 1. rewrite N.
              assert (0 <= Z.of_nat k * step) by nia.
              assert (0 <= Z.of_nat (S k) * step) by nia.
              assert (Z.of_nat (S k) * step = step + Z.of_nat k * step) by lia.
              replace (stopped stop (stop + Z.of_nat k * step)) with true
                by (symmetry; unfold stopped; apply andb_true_iff; split;
                    [apply negb_true_iff, Z.eqb_neq; exact Hne | apply Z.leb_le; lia]).
              replace (stopped stop (next + Z.of_nat (S k) * step)) with true
                by (symmetry; unfold stopped; apply andb_true_iff; split;
                    [apply negb_true_iff, Z.eqb_neq; exact Hne | apply Z.leb_le; lia]).
              reflexivity.
        -- destruct (IH (next + 1) (next + step)) as (ys & E & N); [lia | lia | lia |].
           exists (x :: ys). split; [now rewrite E |].
           intros [| k].
           ++ simpl. rewrite Z.add_0_r, Hr, Z.sub_diag. reflexivity.
           ++ simpl nth_error at 1. rewrite N.
              assert (0 <= Z.of_nat k * step) by nia.
              assert (Hk : Z.of_nat (S k) * step = step + Z.of_nat k * step) by lia.
              rewrite Hk.
              replace (next + step + Z.of_nat k * step)
                with (next + (step + Z.of_nat k * step)) by lia.
              destruct (stopped stop (next + (step + Z.of_nat k * step)));
                [reflexivity |].
              replace (Z.to_nat (next - next + (step + Z.of_nat k * step)))
                with (S (Z.to_nat (next + step - (next + 1) + Z.of_nat k * step)))
                by lia.
              reflexivity.
Qed.

Lemma select_nth_error {A} (xs : list A) (positions : list nat) :
  (forall i, In i positions -> (i < List.length xs)%nat) ->
  forall k,
    nth_error (select xs positions) k
    = match nth_error positions k with
      | Some i => nth_error xs i
      | None => None
      end.
Proof.
  induction positions as [| i ps IH]; intros Hin k.
  - simpl. now rewrite !nth_error_nil.
  - unfold select in *. simpl.
    destruct (nth_error xs i) as [x |] eqn:Hi.
    + destruct k as [| k]; simpl; [now rewrite Hi |].
      apply IH. intros j Hj. apply Hin. now right.
    + apply nth_error_None in Hi.
      specialize (Hin i (or_introl eq_refl)). lia.
Qed.

Lemma range_length_lt (lo hi st k : Z) :
  0 < st -> 0 <= k ->
  (k < range_length lo hi st <-> lo + k * st < hi).
Proof.
  intros Hst Hk. unfold range_length.
  replace (0 <? st) with true by (symmetry; now apply Z.ltb_lt).
  destruct (lo <? hi) eqn:Hlt.
  - apply Z.ltb_lt in Hlt.
    pose proof (Z.mul_div_le (hi - lo - 1) st Hst) as Hd.
    pose proof (Z.mul_succ_div_gt (hi - lo - 1) st Hst) as Hu.
    split; intro H; nia.
  - apply Z.ltb_ge in Hlt. split; intro H; nia.
Qed.

Lemma range_length_nonneg (lo hi st : Z) : 0 < st -> 0 <= range_length lo hi st.
Proof.
  intros Hst. unfold range_length.
  replace (0 <? st) with true by (symmetry; now apply Z.ltb_lt).
  destruct (lo <? hi) eqn:Hlt; [| lia].
  apply Z.ltb_lt in Hlt.
  pose proof (Z.div_pos (hi - lo - 1) st). lia.
Qed.

Lemma islice_arg_bound (lo : Z) (b : option Z) :
  match b with Some z => lo <= z <= maxsize | None => True end ->
  islice_arg lo (bound b) = Ok b.
Proof.
  destruct b as [z |]; simpl; [| reflexivity].
  intros [H1 H2].
  apply Z.leb_le in H1, H2. now rewrite H1, H2.
Qed.

Lemma islice_arg_refused (lo : Z) (b : option Z) :
  ~ match b with Some z => lo <= z <= maxsize | None => True end ->
  islice_arg lo (bound b) = Raise ValueError.
Proof.
  destruct b as [z |]; simpl; [| tauto].
  intros H.
  destruct (lo <=? z) eqn:H1; [| reflexivity].
  destruct (z <=? maxsize) eqn:H2; [| reflexivity].
  apply Z.leb_le in H1, H2. tauto.
Qed.

(** The [k]-th element of the slice the specification describes, for bounds
    and a step that [islice] takes. *)
Lemma spec_slice_nth {A} (xs : list A) (start stop step : option Z) :
  islice_bound start -> islice_bound stop -> islice_step step ->
  let len := Z.of_nat (List.length xs) in
  let st := match step with Some z => z | None => 1 end in
  let lo := match start with Some z => Z.min z len | None => 0 end in
  let hi := match stop with Some z => Z.min z len | None => len end in
  exists zs,
    spec_slice xs start stop step = Ok zs /\
    forall k : nat,
      nth_error zs k
      = if lo + Z.of_nat k * st <? hi
        then nth_error xs (Z.to_nat (lo + Z.of_nat k * st))
        else None.
Proof.
  intros Hs He Ht len st lo hi.
  assert (Hst : 0 < st).
  { subst st. destruct step as [z |]; simpl in Ht; lia. }
  assert (Hlo : 0 <= lo).
  { subst lo. destruct start as [z |]; simpl in Hs; lia. }
  assert (E : slice_indices len start stop step = Ok (lo, hi, st)).
  { unfold slice_indices. fold st.
    replace (st =? 0) with false by (symmetry; apply Z.eqb_neq; lia).
    replace (st <? 0) with false by (symmetry; apply Z.ltb_ge; lia).
    subst lo hi.
    destruct start as [a |], stop as [b |]; simpl in Hs, He;
      repeat match goal with
             | |- context [?z <? 0] =>
                 replace (z <? 0) with false by (symmetry; apply Z.ltb_ge; lia)
             end; reflexivity. }
  unfold spec_slice. fold len. rewrite E. simpl.
  eexists. split; [reflexivity |].
  intros k.
  assert (Hn := range_length_nonneg lo hi st Hst).
  rewrite select_nth_error.
  - rewrite nth_error_map, nth_error_seq. simpl.
    destruct (Nat.ltb k (Z.to_nat (range_length lo hi st))) eqn:Hk.
    + apply Nat.ltb_lt in Hk.
      assert (H : lo + Z.of_nat k * st < hi)
        by (apply range_length_lt; lia).
      apply Z.ltb_lt in H. now rewrite H.
    + apply Nat.ltb_ge in Hk.
      destruct (lo + Z.of_nat k * st <? hi) eqn:H; [| reflexivity].
      apply Z.ltb_lt in H. apply range_length_lt in H; lia.
  - intros i Hi. apply in_map_iff in Hi. destruct Hi as (k' & <- & Hk').
    apply in_seq in Hk'.
    assert (H : lo + Z.of_nat k' * st < hi)
      by (apply range_length_lt; lia).
    assert (hi <= len).
    { subst hi. destruct stop as [b |]; lia. }
    subst len. nia.
Qed.

Lemma getitem_list_slice (q : Query) (start stop step : option Z) :
  islice_bound start -> islice_bound stop -> islice_step step ->
  getitem_list q (VSlice (bound start) (bound stop) (bound step))
  = islice_run (yielded q) 0
      (match start with Some z => z | None => 0 end)
      (match stop with Some z => z | None => -1 end)
      (match step with Some z => z | None => 1 end).
Proof.
  intros Hs He Ht.
  unfold getitem_list, getitem, getattr, islice_new. simpl.
  rewrite (islice_arg_bound 0 start Hs), (islice_arg_bound 0 stop He),
          (islice_arg_bound 1 step Ht). simpl.
  reflexivity.
Qed.

Lemma advance_unit (next : Z) :
  - 2 ^ 63 <= next <= maxsize ->
  - 2 ^ 63 <= advance (-1) next 1 <= maxsize /\ advance (-1) next 1 <= next + 1.
Proof.
  intros H. unfold advance. simpl.
  destruct (Z.eq_dec next maxsize) as [-> | Hne].
  - rewrite wrap_over by (unfold maxsize; lia).
    replace (_ <? _) with true
      by (symmetry; apply Z.ltb_lt; unfold maxsize; lia).
    simpl. unfold maxsize. lia.
  - rewrite wrap_small by (unfold maxsize in *; lia).
    replace (_ <? _) with false by (symmetry; apply Z.ltb_ge; lia).
    simpl. lia.
Qed.

(** With neither stop nor step, [islice] drops the elements before the
    start and yields every one after, however the index wraps. *)
Lemma islice_drop {A} (xs : list A) :
  forall cnt next : Z,
    0 <= cnt -> - 2 ^ 63 <= next <= maxsize ->
    islice_run (map Ok xs) cnt next (-1) 1
    = Ok (skipn (Z.to_nat (next - cnt)) xs).
Proof.
  induction xs as [| x xs IH]; intros cnt next Hc Hn.
  - simpl. rewrite skipn_nil. now destruct (cnt <? next).
  - simpl map. simpl islice_run.
    destruct (cnt <? next) eqn:Hlt.
    + apply Z.ltb_lt in Hlt. rewrite IH by lia.
      replace (Z.to_nat (next - cnt)) with (S (Z.to_nat (next - (cnt + 1)))) by lia.
      reflexivity.
    + apply Z.ltb_ge in Hlt.
      destruct (advance_unit next Hn) as (Hr & Hl).
      rewrite IH by lia.
      replace (Z.to_nat (advance (-1) next 1 - (cnt + 1))) with 0%nat by lia.
      replace (Z.to_nat (next - cnt)) with 0%nat by lia.
      reflexivity.
Qed.

(** The [k]-th element of a slice of a query whose iteration yields [xs],
    for bounds and a step that [islice] takes and follows without wrapping
    around. *)
Lemma getitem_list_nth (q : Query) (xs : list atom) (start stop step : option Z) :
  drain (yielded q) = Ok xs ->
  islice_bound start -> islice_bound stop -> islice_step step ->
  islice_in_range (Z.of_nat (List.length xs)) stop step ->
  let a := match start with Some z => z | None => 0 end in
  let b := match stop with Some z => z | None => -1 end in
  let s := match step with Some z => z | None => 1 end in
  exists ys,
    getitem_list q (VSlice (bound start) (bound stop) (bound step)) = Ok ys /\
    forall k : nat,
      nth_error ys k
      = if stopped b (a + Z.of_nat k * s) then None
        else nth_error xs (Z.to_nat (a + Z.of_nat k * s)).
Proof.
  intros Hxs Hs He Ht Hr a b s. apply drain_Ok_inv in Hxs.
  rewrite (getitem_list_slice q start stop step Hs He Ht), Hxs. fold a b s.
  assert (Ha : 0 <= a <= maxsize)
    by (subst a; destruct start; simpl in Hs; unfold maxsize in *; lia).
  assert (Hst : 1 <= s <= maxsize)
    by (subst s; destruct step; simpl in Ht; unfold maxsize in *; lia).
  assert (Hb : b = -1 \/ 0 <= b <= maxsize)
    by (subst b; destruct stop; simpl in He; auto).
  destruct stop as [sp |], step as [sz |]; simpl in Hr.
  - destruct (islice_run_nth xs b s Hst Hb 0 a) as (ys & E & N);
      [lia | lia | subst b; simpl in He; lia |].
    exists ys. split; [exact E |]. intros k. rewrite N. now rewrite Z.sub_0_r.
  - destruct (islice_run_nth xs b s Hst Hb 0 a) as (ys & E & N);
      [lia | lia | subst b; simpl in He; lia |].
    exists ys. split; [exact E |]. intros k. rewrite N. now rewrite Z.sub_0_r.
  - destruct (islice_run_nth xs b s Hst Hb 0 a) as (ys & E & N);
      [lia | lia | intros _; change s with sz; unfold maxsize in *; lia |].
    exists ys. split; [exact E |]. intros k. rewrite N. now rewrite Z.sub_0_r.
  - subst b s. rewrite islice_drop by (unfold maxsize in *; lia).
    eexists. split; [reflexivity |].
    intros k. rewrite nth_error_skipn. unfold stopped. simpl.
    f_equal. lia.
Qed.

(** C7, as stated, fails: on a query whose iteration gives three elements
    the slice with bounds (-1, None, None) is the last element under the
    standard reading, and a [ValueError] in the code; likewise for a
    negative step. *)
Lemma negative_slice_refused :
  let q := Query_init sample_db in
  drain (yielded q) = Ok [AInt 10; AInt 20; AInt 30] /\
  spec_slice [AInt 10; AInt 20; AInt 30] (Some (-1)) None None = Ok [AInt 30] /\
  getitem_list q (VSlice (bound (Some (-1))) (bound None) (bound None))
    = Raise ValueError /\
  spec_slice [AInt 10; AInt 20; AInt 30] None None (Some (-1))
    = Ok [AInt 30; AInt 20; AInt 10] /\
  getitem_list q (VSlice (bound None) (bound None) (bound (Some (-1))))
    = Raise ValueError.
Proof. repeat split. Qed.

(** Without a stop, a step that takes the index past [sys.maxsize] makes
    [islice] yield the element right after the one it has just yielded. *)
Example step_wraps_around :
  getitem_list (Query_init sample_db)
    (VSlice (bound (Some 1)) (bound None) (bound (Some maxsize)))
  = Ok [AInt 20; AInt 30] /\
  spec_slice [AInt 10; AInt 20; AInt 30] (Some 1) None (Some maxsize)
  = Ok [AInt 20].
Proof. split; vm_compute; reflexivity. Qed.

(** C7, amended.  When the iteration of that execution completes, yielding
    [xs], then for a slice whose start and stop are unset or within
    [0 .. sys.maxsize] and whose step is unset or within
    [1 .. sys.maxsize], with [len xs + step <= sys.maxsize + 1] if a step is
    given without a stop, the elements of the slice are those of [xs]
    selected by the standard half-open reading with clamped bounds, and a
    range that is empty gives the empty sequence.  Any other integer bound
    or step is refused with [ValueError] when the slice is taken. *)
Theorem getitem_slice (q : Query) (xs : list atom) (start stop step : option Z) :
  (drain (yielded q) = Ok xs ->
   islice_bound start -> islice_bound stop -> islice_step step ->
   islice_in_range (Z.of_nat (List.length xs)) stop step ->
   getitem_list q (VSlice (bound start) (bound stop) (bound step))
     = spec_slice xs start stop step /\
   (forall a b, start = Some a -> stop = Some b -> b <= a ->
      getitem_list q (VSlice (bound start) (bound stop) (bound step)) = Ok [])) /\
  (~ (islice_bound start /\ islice_bound stop /\ islice_step step) ->
   getitem q (VSlice (bound start) (bound stop) (bound step)) = Raise ValueError).
Proof.
  split.
  - intros Hxs Hs He Ht Hr.
    assert (Hst : 0 < match step with Some z => z | None => 1 end)
      by (destruct step; simpl in Ht; lia).
    assert (E : getitem_list q (VSlice (bound start) (bound stop) (bound step))
                = spec_slice xs start stop step).
    { destruct (getitem_list_nth q xs start stop step Hxs Hs He Ht Hr)
        as (ys & Ey & Ny).
      destruct (spec_slice_nth xs start stop step Hs He Ht) as (zs & Ez & Nz).
      rewrite Ey, Ez. f_equal. apply nth_error_ext. intros k.
      rewrite Ny, Nz. clear Ny Nz Ey Ez.
      set (len := Z.of_nat (List.length xs)).
      set (st := match step with Some z => z | None => 1 end) in *.
      assert (Hk : 0 <= Z.of_nat k * st) by nia.
      set (p := Z.of_nat k * st) in *.
      assert (Hlen : forall i, 0 <= i ->
                (nth_error xs (Z.to_nat i) = None <-> len <= i)).
      { intros i Hi. rewrite nth_error_None. subst len. lia. }
      unfold stopped.
      destruct start as [a |], stop as [b |]; simpl in Hs, He; simpl;
        repeat match goal with
               | |- context [?x <=? ?y] =>
                   let H := fresh in destruct (x <=? y) eqn:H;
                   [apply Z.leb_le in H | apply Z.leb_gt in H]
               | |- context [?x <? ?y] =>
                   let H := fresh in destruct (x <? y) eqn:H;
                   [apply Z.ltb_lt in H | apply Z.ltb_ge in H]
               | |- context [?x =? ?y] =>
                   let H := fresh in destruct (x =? y) eqn:H;
                   [apply Z.eqb_eq in H | apply Z.eqb_neq in H]
               end; simpl; try reflexivity; try lia;
        try (f_equal; lia); try (apply Hlen; lia);
        try (symmetry; apply Hlen; lia). }
    split; [exact E |].
    intros a b -> -> Hba. rewrite E.
    destruct (spec_slice_nth xs (Some a) (Some b) step Hs He Ht) as (zs & Ez & Nz).
    rewrite Ez. f_equal. apply nth_error_ext. intros k.
    rewrite Nz, nth_error_nil.
    replace (_ <? _) with false; [reflexivity |].
    symmetry. apply Z.ltb_ge. simpl in Hs, He. nia.
  - intros Hn. unfold getitem, getattr, islice_new. simpl.
    destruct start as [a |], stop as [b |], step as [c |]; simpl in *;
      repeat match goal with
             | |- context [?x <=? ?y] =>
                 let H := fresh in destruct (x <=? y) eqn:H;
                 [apply Z.leb_le in H | apply Z.leb_gt in H]
             end; simpl; try reflexivity; exfalso; apply Hn; lia.
Qed.

Lemma getitem_slice_witness :
  getitem_list (Query_init sample_db)
    (VSlice (bound (Some 1)) (bound (Some 3)) (bound None))
  = spec_slice [AInt 10; AInt 20; AInt 30] (Some 1) (Some 3) None.
Proof.
  apply (proj1 (getitem_slice (Query_init sample_db) [AInt 10; AInt 20; AInt 30]
                  (Some 1) (Some 3) None) eq_refl).
  - simpl. unfold maxsize. lia.
  - simpl. unfold maxsize. lia.
  - exact I.
  - exact I.
Defined.

(** * Further properties of the code *)

(** ** Patterns as values *)

Lemma atom_eqb_sym (a b : atom) : atom_eqb a b = atom_eqb b a.
Proof.
  destruct (atom_eqb a b) eqn:E, (atom_eqb b a) eqn:E'; try reflexivity.
  - apply atom_eqb_eq in E. subst. rewrite (proj2 (atom_eqb_eq b b) eq_refl) in E'.
    discriminate.
  - apply atom_eqb_eq in E'. subst. rewrite (proj2 (atom_eqb_eq a a) eq_refl) in E.
    discriminate.
Qed.

(** X1.  [__eq__] between patterns is an equivalence that holds exactly
    when the two patterns carry the same three fields: it decides equality
    of patterns, is symmetric and is transitive. *)
Theorem V_eq_equivalence :
  (forall p p', V_eq p (VEdge p') = true <-> p = p') /\
  (forall p p', V_eq p (VEdge p') = V_eq p' (VEdge p)) /\
  (forall p1 p2 p3,
     V_eq p1 (VEdge p2) = true -> V_eq p2 (VEdge p3) = true ->
     V_eq p1 (VEdge p3) = true).
Proof.
  assert (D : forall p p', V_eq p (VEdge p') = true <-> p = p').
  { intros [s r d] [s' r' d']. rewrite V_eq_iff. simpl. split.
    - intros (-> & -> & ->). reflexivity.
    - intros H. injection H as -> -> ->. auto. }
  split; [exact D |]. split.
  - intros p p'. unfold V_eq.
    now rewrite (atom_eqb_sym (src p)), (atom_eqb_sym (rel p)), (atom_eqb_sym (dst p)).
  - intros p1 p2 p3 H12 H23. apply D in H12, H23. apply D. congruence.
Qed.

Lemma V_eq_equivalence_witness :
  V_eq (mkV (AInt 1) knows ANone) (VEdge (V_call (mkV (AInt 1) knows (AInt 2)) ANone))
  = true.
Proof.
  apply (proj2 (proj2 V_eq_equivalence)
           (mkV (AInt 1) knows ANone)
           (V_call (mkV (AInt 1) knows (AInt 3)) ANone)
           (V_call (mkV (AInt 1) knows (AInt 2)) ANone));
    reflexivity.
Defined.

Lemma not_slot (attr : string) :
  existsb (String.eqb attr) slots = false <-> ~ In attr slots.
Proof.
  split.
  - intros H Hin.
    assert (E : existsb (String.eqb attr) slots = true).
    { apply existsb_exists. exists attr. split; [exact Hin | apply String.eqb_refl]. }
    congruence.
  - intros H. destruct (existsb (String.eqb attr) slots) eqn:E; [| reflexivity].
    apply existsb_exists in E. destruct E as (x & Hin & Hx).
    apply String.eqb_eq in Hx. subst x. contradiction.
Qed.

(** X2.  The fluent spelling builds the pattern it reads as, for the names
    that reach [__getattr__]: when [name] is not a name the pattern already
    has (a slot, a member of its class, a name that comes with every
    object), [V(s, r, d).name] is the pattern with that relation, and calling
    it with a destination gives the pattern (s, name, d'); taking the name
    after the destination gives the same.  A name the pattern has gives that
    field or member and rebinds nothing.  Called directly, [__getattr__]
    raises exactly on the three slot names. *)
Theorem V_fluent (inherited : string -> bool) (s r d : atom) (name : string)
    (d' : atom) :
  (V_has inherited name = false ->
   V_dot inherited (mkV s r d) name = Ok (Rebound (mkV s (AStr name) d)) /\
   V_call (mkV s (AStr name) d) d' = mkV s (AStr name) d' /\
   V_dot inherited (V_call (mkV s r d) d') name
     = Ok (Rebound (mkV s (AStr name) d'))) /\
  (V_has inherited name = true ->
   exists a,
     V_dot inherited (mkV s r d) name = Ok a /\ forall e, a <> Rebound e) /\
  (V_getattr (mkV s r d) name = Raise TypeError <-> In name slots).
Proof.
  split; [| split].
  - intros H. unfold V_has in H.
    apply orb_false_iff in H. destruct H as (H & Hi).
    apply orb_false_iff in H. destruct H as (Hs & Hm).
    assert (E : forall e, V_dot inherited e name
                          = Ok (Rebound (mkV (src e) (AStr name) (dst e)))).
    { intros e. unfold V_dot, V_has, V_getattr. rewrite Hs, Hm, Hi.
      simpl in Hs.
      apply orb_false_iff in Hs. destruct Hs as (H1 & Hs).
      apply orb_false_iff in Hs. destruct Hs as (H2 & Hs).
      apply orb_false_iff in Hs. destruct Hs as (H3 & _).
      now rewrite H1, H2, H3. }
    rewrite !E. repeat split.
  - intros H. unfold V_dot. rewrite H.
    destruct (String.eqb name "src");
      [eexists; split; [reflexivity | discriminate] |].
    destruct (String.eqb name "rel");
      [eexists; split; [reflexivity | discriminate] |].
    destruct (String.eqb name "dst");
      [eexists; split; [reflexivity | discriminate] |].
    eexists; split; [reflexivity | discriminate].
  - unfold V_getattr.
    destruct (existsb (String.eqb name) slots) eqn:E.
    + split; [intros _ | reflexivity].
      apply existsb_exists in E. destruct E as (x & Hin & Hx).
      apply String.eqb_eq in Hx. now subst x.
    + apply not_slot in E. split; [discriminate | contradiction].
Qed.

Lemma V_fluent_witness :
  V_dot (String.eqb "__class__") (mkV (AInt 1) ANone ANone) "knows"
    = Ok (Rebound (mkV (AInt 1) knows ANone)) /\
  V_call (mkV (AInt 1) knows ANone) (AInt 2) = mkV (AInt 1) knows (AInt 2) /\
  V_dot (String.eqb "__class__") (V_call (mkV (AInt 1) ANone ANone) (AInt 2)) "knows"
    = Ok (Rebound (mkV (AInt 1) knows (AInt 2))).
Proof.
  apply (proj1 (V_fluent (String.eqb "__class__") (AInt 1) ANone ANone "knows"
                  (AInt 2))).
  reflexivity.
Defined.

(** A name the pattern has, here one that comes with every object, is not
    taken for a relation. *)
Example V_dot_class :
  V_dot (String.eqb "__class__") (mkV (AInt 1) (AStr "r") (AInt 2)) "__class__"
    = Ok (Member "__class__") /\
  V_dot (String.eqb "__class__") (mkV (AInt 1) (AStr "r") (AInt 2)) "__eq__"
    = Ok (Member "__eq__") /\
  V_dot (String.eqb "__class__") (mkV (AInt 1) (AStr "r") (AInt 2)) "rel"
    = Ok (Field (AStr "r")).
Proof. repeat split. Qed.

Lemma assign_same (h : store) (l : ref) (v : V) : assign h l v l = v.
Proof. unfold assign. now rewrite Nat.eqb_refl. Qed.

Lemma assign_other (h : store) (l l' : ref) (v : V) :
  l' <> l -> assign h l v l' = h l'.
Proof. intros H. unfold assign. apply Nat.eqb_neq in H. now rewrite H. Qed.

(** X3.  Binding a relation or a destination changes the pattern in place:
    the reference that comes back is the receiver, every other pattern is
    left as it was, and a second binding through the same reference is seen
    by whoever holds the first result, since both are the one object. *)
Theorem V_bound_in_place (h : store) (self : ref) (n1 n2 : string) (d : atom) :
  ~ In n1 slots -> ~ In n2 slots ->
  exists h1 h2,
    V_getattr_in h self n1 = Ok (self, h1) /\
    h1 self = mkV (src (h self)) (AStr n1) (dst (h self)) /\
    V_getattr_in h1 self n2 = Ok (self, h2) /\
    h2 self = mkV (src (h self)) (AStr n2) (dst (h self)) /\
    snd (V_call_in h2 self d) self = mkV (src (h self)) (AStr n2) d /\
    fst (V_call_in h2 self d) = self /\
    (forall other, other <> self ->
       h1 other = h other /\ h2 other = h other /\
       snd (V_call_in h2 self d) other = h other).
Proof.
  intros H1 H2. apply not_slot in H1, H2.
  exists (assign h self (mkV (src (h self)) (AStr n1) (dst (h self)))).
  exists (assign (assign h self (mkV (src (h self)) (AStr n1) (dst (h self))))
            self (mkV (src (h self)) (AStr n2) (dst (h self)))).
  unfold V_getattr_in, V_call_in, V_getattr, V_call.
  rewrite H1. cbn [bind]. rewrite !assign_same. cbn [src dst rel].
  rewrite H2. cbn [bind fst snd]. rewrite !assign_same.
  repeat split; try (intros; now rewrite ?assign_other by assumption).
Qed.

Lemma V_bound_in_place_witness :
  exists h1 h2,
    V_getattr_in (fun _ => V_init) 0%nat "knows" = Ok (0%nat, h1) /\
    h1 0%nat = mkV ANone knows ANone /\
    V_getattr_in h1 0%nat "likes" = Ok (0%nat, h2) /\
    h2 0%nat = mkV ANone (AStr "likes") ANone.
Proof.
  destruct (V_bound_in_place (fun _ => V_init) 0%nat "knows" "likes" (AInt 2))
    as (h1 & h2 & E1 & E2 & E3 & E4 & _).
  - simpl. intros [H | [H | [H | []]]]; discriminate H.
  - simpl. intros [H | [H | [H | []]]]; discriminate H.
  - exists h1, h2. repeat split; assumption.
Defined.

(** ** The display of a pattern *)

Lemma append_inj_l (a b c : string) : (a ++ b = a ++ c)%string -> b = c.
Proof.
  induction a as [| ch a IH]; simpl; intro H; [exact H |].
  injection H as H. now apply IH.
Qed.

(** X4.  The display of a pattern does not determine the pattern: an
    integer endpoint and the string of its digits display alike, and so do
    an unbound endpoint and the string [*], although [__eq__] tells each
    pair apart.  The relation is displayed without such a clash: between
    the same endpoints an unbound relation and a named one never display
    alike. *)
Theorem V_repr_ambiguity :
  (forall z r d,
     V_repr (mkV (AInt z) r d) = V_repr (mkV (AStr (str (AInt z))) r d) /\
     V_eq (mkV (AInt z) r d) (VEdge (mkV (AStr (str (AInt z))) r d)) = false) /\
  (forall r d,
     V_repr (mkV ANone r d) = V_repr (mkV (AStr "*") r d) /\
     V_eq (mkV ANone r d) (VEdge (mkV (AStr "*") r d)) = false) /\
  (forall s d name, V_repr (mkV s ANone d) <> V_repr (mkV s (AStr name) d)).
Proof.
  repeat split.
  intros s d name H. unfold V_repr in H. simpl in H.
  injection H as H. apply append_inj_l in H. simpl in H. discriminate H.
Qed.

(** ** Composing queries *)

Lemma append_assoc (a b c : string) : ((a ++ b) ++ c = a ++ (b ++ c))%string.
Proof. induction a as [| ch a IH]; simpl; [reflexivity | now rewrite IH]. Qed.

Lemma concat_snoc (sep : string) (l : list string) (f : string) :
  String.concat sep (l ++ [f])
  = match l with
    | [] => f
    | _ => (String.concat sep l ++ sep ++ f)%string
    end.
Proof.
  induction l as [| x l IH]; [reflexivity |].
  destruct l as [| y l]; [reflexivity |].
  change (String.concat sep ((x :: y :: l) ++ [f]))
    with (x ++ sep ++ String.concat sep ((y :: l) ++ [f]))%string.
  rewrite IH.
  change (String.concat sep (x :: y :: l))
    with (x ++ sep ++ String.concat sep (y :: l))%string.
  now rewrite !append_assoc.
Qed.


(** X5.  Deriving repeatedly accumulates in order: starting from a query
    whose fragments are a tuple, deriving with each (fragment, parameters)
    pair of a list in turn returns the query whose fragments are the old
    ones followed by the list's fragments and whose parameters are the old
    ones followed by all the list's parameters, concatenated in the same
    order. *)
Theorem derived_accumulates (d : Session) (steps : list (string * list atom)) :
  forall (fs : list string) (ps : list atom),
    fold_left (fun acc step => q <- acc ;; derived q (fst step) (snd step))
              steps (Ok (mkQuery d (PTuple fs) ps))
    = Ok (mkQuery d (PTuple (fs ++ map fst steps)) (ps ++ List.concat (map snd steps))).
Proof.
  induction steps as [| [f p] steps IH]; intros fs ps.
  - simpl. now rewrite !app_nil_r.
  - cbn [fold_left bind fst snd map List.concat].
    rewrite derived_tuple, IH. now rewrite <- !app_assoc.
Qed.

Lemma statement_snoc (d : Session) (fs : list string) (ps ps' : list atom)
    (f : string) :
  statement (mkQuery d (PTuple (fs ++ [f])) ps')
  = match fs with
    | [] => f
    | _ => (statement (mkQuery d (PTuple fs) ps) ++ newline ++ f)%string
    end.
Proof. unfold statement, join. simpl. apply concat_snoc. Qed.

(** X6.  The statement of a derived query is the receiver's statement, a
    newline and the new fragment; on a receiver without fragments it is the
    fragment alone, with no leading newline. *)
Theorem derived_statement (q q' : Query) (f : string) (ps : list atom) :
  derived q f ps = Ok q' ->
  statement q'
  = match items (sql q) with
    | [] => f
    | _ => (statement q ++ newline ++ f)%string
    end.
Proof.
  intros H. destruct q as [d [fs | fs] p]; [| discriminate H].
  rewrite derived_tuple in H. injection H as <-.
  apply (statement_snoc d fs p (p ++ ps) f).
Qed.

Lemma derived_statement_witness :
  statement (mkQuery sample_db (PTuple ["SELECT 1"; "UNION"; "SELECT 2"]) [])
  = (statement (mkQuery sample_db (PTuple ["SELECT 1"; "UNION"]) [])
     ++ newline ++ "SELECT 2")%string.
Proof.
  apply (derived_statement (mkQuery sample_db (PTuple ["SELECT 1"; "UNION"]) [])
           (mkQuery sample_db (PTuple ["SELECT 1"; "UNION"; "SELECT 2"]) [])
           "SELECT 2" []).
  reflexivity.
Defined.



Lemma call_lookup (SQL : StatementBuilder) (q : Query) (e : V) :
  call SQL q e
  = derived q (fst (lookup_fragment SQL e)) (snd (lookup_fragment SQL e)).
Proof.
  unfold call, lookup_fragment. simpl.
  now destruct (if is_None (dst e) then _ else _).
Qed.

Lemma traverse_fragment (SQL : StatementBuilder) (q : Query) (e : V) :
  traverse SQL q e
  = Ok (mkQuery (db q) (PList [fst (traversal_fragment SQL e (statement q))])
          (params q ++ snd (traversal_fragment SQL e (statement q)))).
Proof. apply traverse_Ok. Qed.

(** X8.  Applying a pattern to a fresh query and running it sends the
    session exactly the builder's statement with exactly the builder's
    parameters: the statement of the new query is the fragment, with nothing
    joined to it, and counting it logs that one execution. *)
Theorem root_lookup_executes (SQL : StatementBuilder) (d : Session) (e : V)
    (log : list event) :
  exists q',
    call SQL (Query_init d) e = Ok q' /\
    statement q' = fst (lookup_fragment SQL e) /\
    params q' = snd (lookup_fragment SQL e) /\
    yielded q'
      = match execute d (fst (lookup_fragment SQL e)) (snd (lookup_fragment SQL e)) with
        | Raise err => [Raise err]
        | Ok rows => map first_column rows
        end /\
    snd (count q' log)
      = log ++ [Executed (fst (lookup_fragment SQL e)) (snd (lookup_fragment SQL e))].
Proof.
  rewrite call_lookup. unfold Query_init. rewrite derived_tuple.
  eexists. split; [reflexivity |]. repeat split.
Qed.

(** X9.  A set operator sits between the two lookups it combines: applying
    a pattern, taking a set-operator property and applying a second pattern
    returns the query whose fragments are the first lookup, the keyword and
    the second lookup, in that order, after the fragments already there, and
    whose parameters are the first lookup's followed by the second's. *)
Theorem set_operator_between (SQL : StatementBuilder) (d : Session)
    (fs : list string) (ps : list atom) (e1 e2 : V) :
  let q := mkQuery d (PTuple fs) ps in
  let f1 := lookup_fragment SQL e1 in
  let f2 := lookup_fragment SQL e2 in
  let combined keyword :=
    Ok (mkQuery d (PTuple (fs ++ [fst f1; keyword; fst f2])) (ps ++ snd f1 ++ snd f2)) in
  (q1 <- call SQL q e1 ;; q2 <- intersection q1 ;; call SQL q2 e2) = combined "INTERSECT" /\
  (q1 <- call SQL q e1 ;; q2 <- union q1 ;; call SQL q2 e2) = combined "UNION" /\
  (q1 <- call SQL q e1 ;; q2 <- difference q1 ;; call SQL q2 e2) = combined "EXCEPT" /\
  (fs = [] ->
   forall keyword q',
     combined keyword = Ok q' ->
     statement q' = (fst f1 ++ newline ++ keyword ++ newline ++ fst f2)%string).
Proof.
  intros q f1 f2 combined. subst q combined.
  unfold intersection, union, difference.
  rewrite !call_lookup, !derived_tuple. cbn [bind].
  rewrite !derived_tuple. cbn [bind].
  rewrite !call_lookup, !derived_tuple.
  fold f1 f2.
  rewrite !app_nil_r, <- !app_assoc. simpl.
  repeat split.
  intros -> keyword q' H. injection H as <-. reflexivity.
Qed.

Lemma set_operator_between_witness :
  statement (mkQuery sample_db
               (PTuple ["SELECT dst FROM edge WHERE src = ? AND rel IS ?";
                        "UNION";
                        "SELECT src FROM edge WHERE dst = ? AND rel IS ?"])
               [AInt 1; knows; AInt 2; knows])
  = (fst (lookup_fragment sample_sql (mkV (AInt 1) knows ANone)) ++ newline
     ++ "UNION" ++ newline
     ++ fst (lookup_fragment sample_sql (mkV ANone knows (AInt 2))))%string.
Proof.
  apply (proj2 (proj2 (proj2 (set_operator_between sample_sql sample_db [] []
           (mkV (AInt 1) knows ANone) (mkV ANone knows (AInt 2)))))
           eq_refl "UNION").
  reflexivity.
Defined.

(** X10.  Traversals nest instead of accumulating: the statement of a
    traversed query is the traversal fragment itself, built over the whole
    statement of the receiver, so a second traversal wraps the first; the
    parameters still run left to right, the receiver's, then the first
    traversal's, then the second's.  A traversed query can be traversed
    again, whether its fragments are a tuple or a list. *)
Theorem traverse_nests (SQL : StatementBuilder) (q : Query) (e1 e2 : V) :
  let f1 := traversal_fragment SQL e1 (statement q) in
  let f2 := traversal_fragment SQL e2 (fst f1) in
  (exists q1, traverse SQL q e1 = Ok q1 /\ statement q1 = fst f1) /\
  (q1 <- traverse SQL q e1 ;; traverse SQL q1 e2)
    = Ok (mkQuery (db q) (PList [fst f2]) (params q ++ snd f1 ++ snd f2)) /\
  (forall q2,
     (q1 <- traverse SQL q e1 ;; traverse SQL q1 e2) = Ok q2 ->
     statement q2 = fst f2).
Proof.
  intros f1 f2. rewrite traverse_fragment. fold f1. cbn [bind].
  rewrite traverse_fragment. cbn [db params].
  change (statement (mkQuery (db q) (PList [fst f1]) (params q ++ snd f1)))
    with (fst f1).
  fold f2. rewrite <- app_assoc.
  split; [eexists; split; reflexivity |].
  split; [reflexivity |].
  intros q2 H. injection H as <-. reflexivity.
Qed.

Lemma traverse_nests_witness :
  statement
    (mkQuery sample_db
       (PList ["SELECT dst FROM edge WHERE rel IS ? AND src IN (SELECT dst FROM edge WHERE rel IS ? AND src IN ())"])
       [knows; knows])
  = fst (traversal_fragment sample_sql (mkV ANone knows ANone)
           (fst (traversal_fragment sample_sql (mkV ANone knows ANone)
                   (statement (Query_init sample_db))))).
Proof.
  apply (proj2 (proj2 (traverse_nests sample_sql (Query_init sample_db)
           (mkV ANone knows ANone) (mkV ANone knows ANone)))).
  reflexivity.
Defined.

(** X11.  No operation changes the session: a query returned by [derived],
    by applying a pattern, by a traversal or by a set-operator property
    runs on the session of the query it came from. *)
Theorem session_kept (SQL : StatementBuilder) (q q' : Query) (e : V)
    (f : string) (ps : list atom) :
  derived q f ps = Ok q' \/ call SQL q e = Ok q' \/ traverse SQL q e = Ok q' \/
  intersection q = Ok q' \/ union q = Ok q' \/ difference q = Ok q' ->
  db q' = db q.
Proof.
  assert (D : forall g gs r, derived q g gs = Ok r -> db r = db q).
  { intros g gs r H. apply derived_Ok_inv in H. now destruct H as (fs & _ & ->). }
  intros [H | [H | [H | [H | [H | H]]]]]; try (now apply D in H).
  - rewrite call_lookup in H. now apply D in H.
  - rewrite traverse_fragment in H. now injection H as <-.
Qed.

Lemma session_kept_witness :
  db (mkQuery sample_db (PList ["SELECT 2"]) [AInt 1]) = db (Query_init sample_db).
Proof.
  apply (session_kept
           {| forwards_relation := fun _ _ => ("SELECT 1", []);
              inverse_relation := fun _ _ => ("SELECT 1", []);
              compound_fw_query := fun _ _ => ("SELECT 2", [AInt 1]);
              compound_iv_query := fun _ _ _ => ("SELECT 2", [AInt 1]) |}
           (Query_init sample_db)
           (mkQuery sample_db (PList ["SELECT 2"]) [AInt 1])
           (mkV ANone knows ANone) "" []).
  right. right. left. reflexivity.
Defined.

(** ** Iterating, counting and slicing *)

Lemma islice_run_all {A} (source : list (result A)) :
  forall cnt next,
    0 <= cnt -> - 2 ^ 63 <= next <= maxsize -> next <= cnt ->
    islice_run source cnt next (-1) 1 = drain source.
Proof.
  induction source as [| [x | e] rest IH]; intros cnt next Hc Hn Hle; simpl;
    replace (cnt <? next) with false by (symmetry; apply Z.ltb_ge; lia);
    try reflexivity.
  destruct (advance_unit next Hn) as (Hr & Hl).
  now rewrite IH by lia.
Qed.

(** X12.  The slice without bounds is the iteration itself, on every
    session: it yields what a fresh iteration yields and raises what it
    raises, and the count of the query is the length of that slice. *)
Theorem full_slice_is_iteration (q : Query) (log : list event) :
  getitem_list q (VSlice (VAtom ANone) (VAtom ANone) (VAtom ANone))
    = drain (yielded q) /\
  fst (count q log)
    = fmap (fun ys => Z.of_nat (List.length ys))
        (getitem_list q (VSlice (VAtom ANone) (VAtom ANone) (VAtom ANone))).
Proof.
  assert (E : getitem_list q (VSlice (VAtom ANone) (VAtom ANone) (VAtom ANone))
              = drain (yielded q)).
  { unfold getitem_list, getitem. simpl. unfold islice_list. simpl.
    apply islice_run_all; unfold maxsize; lia. }
  split; [exact E |].
  rewrite E. unfold count, iter. simpl. now rewrite sum_ones_drain.
Qed.

(** X13.  With the step left out, slicing is dropping and taking: on an
    iteration that yields [xs], the slice from [a] to [b] is the first
    [b - a] elements of what is left after dropping [a], the slice up to
    [b] is the first [b] elements, and the slice from [a] is what is left
    after dropping [a]; when [b <= a] or [a] is past the end the result is
    empty. *)
Theorem slice_contiguous (q : Query) (xs : list atom) (a b : Z) :
  drain (yielded q) = Ok xs ->
  0 <= a <= maxsize -> 0 <= b <= maxsize ->
  getitem_list q (VSlice (VAtom (AInt a)) (VAtom (AInt b)) (VAtom ANone))
    = Ok (firstn (Z.to_nat b - Z.to_nat a) (skipn (Z.to_nat a) xs)) /\
  getitem_list q (VSlice (VAtom ANone) (VAtom (AInt b)) (VAtom ANone))
    = Ok (firstn (Z.to_nat b) xs) /\
  getitem_list q (VSlice (VAtom (AInt a)) (VAtom ANone) (VAtom ANone))
    = Ok (skipn (Z.to_nat a) xs).
Proof.
  intros Hxs Ha Hb.
  assert (S : forall i, stopped b i = (b <=? i)).
  { intros i. unfold stopped.
    replace (b =? -1) with false by (symmetry; apply Z.eqb_neq; lia).
    reflexivity. }
  split; [| split].
  - destruct (getitem_list_nth q xs (Some a) (Some b) None Hxs Ha Hb I I)
      as (ys & E & N).
    cbn [bound] in E. rewrite E. f_equal. apply nth_error_ext. intros k.
    rewrite N, S, nth_error_firstn, nth_error_skipn.
    destruct (b <=? a + Z.of_nat k * 1) eqn:H1,
             (Nat.ltb k (Z.to_nat b - Z.to_nat a)) eqn:H2;
      [apply Z.leb_le in H1; apply Nat.ltb_lt in H2; lia
      | reflexivity
      | f_equal; lia
      | apply Z.leb_gt in H1; apply Nat.ltb_ge in H2; lia].
  - destruct (getitem_list_nth q xs None (Some b) None Hxs I Hb I I)
      as (ys & E & N).
    cbn [bound] in E. rewrite E. f_equal. apply nth_error_ext. intros k.
    rewrite N, S, nth_error_firstn.
    destruct (b <=? 0 + Z.of_nat k * 1) eqn:H1,
             (Nat.ltb k (Z.to_nat b)) eqn:H2;
      [apply Z.leb_le in H1; apply Nat.ltb_lt in H2; lia
      | reflexivity
      | f_equal; lia
      | apply Z.leb_gt in H1; apply Nat.ltb_ge in H2; lia].
  - destruct (getitem_list_nth q xs (Some a) None None Hxs Ha I I I)
      as (ys & E & N).
    cbn [bound] in E. rewrite E. f_equal. apply nth_error_ext. intros k.
    rewrite N, nth_error_skipn. unfold stopped. simpl.
    f_equal. lia.
Qed.

Lemma slice_contiguous_witness :
  getitem_list (Query_init sample_db)
    (VSlice (VAtom (AInt 1)) (VAtom (AInt 3)) (VAtom ANone))
  = Ok (firstn (Z.to_nat 3 - Z.to_nat 1)
          (skipn (Z.to_nat 1) [AInt 10; AInt 20; AInt 30])).
Proof.
  apply (proj1 (slice_contiguous (Query_init sample_db) [AInt 10; AInt 20; AInt 30]
                  1 3 eq_refl
                  ltac:(unfold maxsize; lia) ltac:(unfold maxsize; lia))).
Defined.

(** X14.  A slice with a step takes every [step]-th element from the start:
    when a step given without a stop satisfies
    [len xs + step <= sys.maxsize + 1], so that the index does not wrap
    around, the [k]-th element of the slice is the iteration's element of
    index [start + k * step] whenever that index is before the stop.  The
    slice then never yields anything the iteration does not, and never more
    elements than the iteration has. *)
Theorem slice_stride (q : Query) (xs : list atom) (start stop step : option Z) :
  drain (yielded q) = Ok xs ->
  islice_bound start -> islice_bound stop -> islice_step step ->
  islice_in_range (Z.of_nat (List.length xs)) stop step ->
  let a := match start with Some z => z | None => 0 end in
  let s := match step with Some z => z | None => 1 end in
  exists ys,
    getitem_list q (VSlice (bound start) (bound stop) (bound step)) = Ok ys /\
    (forall k : nat,
       nth_error ys k
       = if match stop with
            | Some b => b <=? a + Z.of_nat k * s
            | None => false
            end
         then None
         else nth_error xs (Z.to_nat (a + Z.of_nat k * s))) /\
    incl ys xs /\
    (List.length ys <= List.length xs)%nat.
Proof.
  intros Hxs Hs He Ht Hr a s.
  destruct (getitem_list_nth q xs start stop step Hxs Hs He Ht Hr)
    as (ys & E & N).
  fold a s in N.
  exists ys. split; [exact E |].
  assert (Ha : 0 <= a) by (subst a; destruct start; simpl in Hs; lia).
  assert (H1 : 1 <= s) by (subst s; destruct step; simpl in Ht; lia).
  assert (N' : forall k : nat,
             nth_error ys k
             = if match stop with
                  | Some b => b <=? a + Z.of_nat k * s
                  | None => false
                  end
               then None
               else nth_error xs (Z.to_nat (a + Z.of_nat k * s))).
  { intros k. rewrite N. unfold stopped.
    destruct stop as [b |]; simpl in He; simpl; [| reflexivity].
    replace (b =? -1) with false by (symmetry; apply Z.eqb_neq; lia).
    reflexivity. }
  split; [exact N' |]. split.
  - intros y Hy. apply In_nth_error in Hy. destruct Hy as (k & Hk).
    rewrite N' in Hk.
    destruct (match stop with
              | Some b => b <=? a + Z.of_nat k * s
              | None => false
              end); [discriminate Hk |].
    now apply nth_error_In in Hk.
  - apply nth_error_None. rewrite N'.
    destruct (match stop with
              | Some b => b <=? a + Z.of_nat (List.length xs) * s
              | None => false
              end); [reflexivity |].
    apply nth_error_None. nia.
Qed.

Lemma slice_stride_witness :
  exists ys,
    getitem_list (Query_init sample_db)
      (VSlice (bound None) (bound None) (bound (Some 2))) = Ok ys /\
    incl ys [AInt 10; AInt 20; AInt 30].
Proof.
  destruct (slice_stride (Query_init sample_db) [AInt 10; AInt 20; AInt 30]
              None None (Some 2) eq_refl I I
              ltac:(simpl; unfold maxsize; lia)
              ltac:(simpl; unfold maxsize; lia))
    as (ys & E & _ & Hin & _).
  exists ys. split; assumption.
Defined.

(** X15.  A slice that starts at the beginning and stops at 0 is empty
    without the query being run: whatever the session would answer, even a
    failure, the result is the empty sequence. *)
Theorem zero_stop_runs_nothing (q : Query) (start step : option Z) :
  start = None \/ start = Some 0 ->
  islice_step step ->
  getitem_list q (VSlice (bound start) (bound (Some 0)) (bound step)) = Ok [].
Proof.
  intros Hs Ht.
  assert (Hb : islice_bound start)
    by (destruct Hs as [-> | ->]; simpl; [exact I | unfold maxsize; lia]).
  assert (H0 : islice_bound (Some 0)) by (simpl; unfold maxsize; lia).
  rewrite (getitem_list_slice q start (Some 0) step Hb H0 Ht).
  destruct Hs as [-> | ->]; simpl; now destruct (yielded q).
Qed.

Lemma zero_stop_runs_nothing_witness :
  getitem_list (Query_init failing_db)
    (VSlice (bound None) (bound (Some 0)) (bound (Some 3))) = Ok [].
Proof.
  apply (zero_stop_runs_nothing (Query_init failing_db) None (Some 3)).
  - now left.
  - simpl. unfold maxsize. lia.
Defined.




(** X17.  A failure of the session is passed on as it is: when executing
    the query's statement raises, so do the iteration, the count and every
    slice that has to look at an element, each with the same exception, and
    the execution is still logged once. *)
Theorem backend_failure_propagates (q : Query) (err : exn) (log : list event) :
  execute (db q) (statement q) (params q) = Raise err ->
  drain (yielded q) = Raise err /\
  fst (count q log) = Raise err /\
  snd (count q log) = log ++ [Executed (statement q) (params q)] /\
  (forall start stop step,
     islice_bound start -> islice_bound stop -> islice_step step ->
     ~ ((start = None \/ start = Some 0) /\ stop = Some 0) ->
     getitem_list q (VSlice (bound start) (bound stop) (bound step)) = Raise err).
Proof.
  intros H.
  assert (Y : yielded q = [Raise err]) by (unfold yielded; now rewrite H).
  split; [now rewrite Y |].
  split; [unfold count, iter; simpl; now rewrite Y |].
  split; [reflexivity |].
  intros start stop step Hs He Ht Hn.
  rewrite (getitem_list_slice q start stop step Hs He Ht), Y.
  assert (P : forall a b s,
            0 <= a -> (a = 0 -> stopped b 0 = false) ->
            islice_run [@Raise atom err] 0 a b s = Raise err).
  { intros a b s Ha Hb. simpl.
    destruct (0 <? a) eqn:E; [reflexivity |].
    apply Z.ltb_ge in E. rewrite Hb by lia. reflexivity. }
  apply P.
  - destruct start; simpl in Hs; lia.
  - intros Ha. unfold stopped.
    destruct stop as [b |]; simpl in He; [| reflexivity].
    replace (b =? -1) with false by (symmetry; apply Z.eqb_neq; lia).
    simpl. apply Z.leb_gt.
    destruct (Z.eq_dec b 0) as [-> | Hb]; [| lia].
    exfalso. apply Hn. split; [| reflexivity].
    destruct start as [a |]; [right; f_equal; exact Ha | now left].
Qed.

Lemma backend_failure_propagates_witness :
  getitem_list (Query_init failing_db)
    (VSlice (bound (Some 1)) (bound (Some 0)) (bound None)) = Raise BackendError.
Proof.
  apply (proj2 (proj2 (proj2 (backend_failure_propagates (Query_init failing_db)
           BackendError [] eq_refl))) (Some 1) (Some 0) None).
  - simpl. unfold maxsize. lia.
  - simpl. unfold maxsize. lia.
  - exact I.
  - intros [[H | H] _]; discriminate H.
Defined.

(** X18.  A slice whose start, stop or step is neither [None] nor an
    integer is refused with [ValueError] when the slice is taken, before the
    query is run. *)
Theorem non_integer_bound_refused (q : Query) (start stop step : value) :
  is_index start = false \/ is_index stop = false \/ is_index step = false ->
  getitem q (VSlice start stop step) = Raise ValueError.
Proof.
  assert (A : forall lo v, is_index v = false -> islice_arg lo v = Raise ValueError).
  { intros lo [[| z | s] | s | e | a b c | a b c]; simpl; intro H;
      try discriminate; reflexivity. }
  assert (B : forall lo v, islice_arg lo v = Raise ValueError \/
                           exists n, islice_arg lo v = Ok n).
  { intros lo [[| z | s] | s | e | a b c | a b c]; simpl; eauto.
    destruct ((lo <=? z) && (z <=? maxsize)); eauto. }
  intros H. unfold getitem, getattr, islice_new. simpl.
  destruct (B 0 start) as [-> | (n1 & E1)]; [reflexivity |].
  rewrite E1. cbn [bind].
  destruct (B 0 stop) as [-> | (n2 & E2)]; [reflexivity |].
  rewrite E2. cbn [bind].
  destruct (B 1 step) as [-> | (n3 & E3)]; [reflexivity |].
  exfalso. destruct H as [H | [H | H]].
  - rewrite (A 0 start H) in E1. discriminate.
  - rewrite (A 0 stop H) in E2. discriminate.
  - rewrite (A 1 step H) in E3. discriminate.
Qed.

Lemma non_integer_bound_refused_witness :
  getitem (Query_init sample_db)
    (VSlice (VAtom (AStr "a")) (VAtom (AInt 2)) (VAtom ANone)) = Raise ValueError.
Proof.
  apply (non_integer_bound_refused (Query_init sample_db)
           (VAtom (AStr "a")) (VAtom (AInt 2)) (VAtom ANone)).
  now left.
Defined.

(** ** A step that takes the index past sys.maxsize *)

Lemma islice_skip {A} (xs : list A) (stop step : Z) :
  forall cnt next,
    0 <= cnt <= next ->
    islice_run (map Ok xs) cnt next stop step
    = islice_run (map Ok (skipn (Z.to_nat (next - cnt)) xs)) next next stop step.
Proof.
  induction xs as [| x xs IH]; intros cnt next H.
  - rewrite skipn_nil. simpl. rewrite Z.ltb_irrefl.
    now destruct (cnt <? next), (stopped stop cnt), (stopped stop next).
  - simpl map at 1. simpl islice_run at 1.
    destruct (cnt <? next) eqn:E.
    + apply Z.ltb_lt in E. rewrite IH by lia.
      replace (Z.to_nat (next - cnt)) with (S (Z.to_nat (next - (cnt + 1)))) by lia.
      reflexivity.
    + apply Z.ltb_ge in E. assert (cnt = next) by lia. subst cnt.
      rewrite Z.sub_diag. simpl. now rewrite Z.ltb_irrefl.
Qed.

Lemma islice_exhaust {A} (xs : list A) (stop step : Z) :
  forall cnt next,
    cnt + Z.of_nat (List.length xs) <= next ->
    islice_run (map Ok xs) cnt next stop step = Ok [].
Proof.
  induction xs as [| x xs IH]; intros cnt next H.
  - simpl. destruct (cnt <? next); [reflexivity |].
    now destruct (stopped stop cnt).
  - simpl List.length in H. rewrite Nat2Z.inj_succ in H.
    simpl. replace (cnt <? next) with true by (symmetry; apply Z.ltb_lt; lia).
    apply IH. lia.
Qed.

Lemma advance_wrapped (next step : Z) :
  0 <= next <= maxsize -> 1 <= step <= maxsize -> maxsize < next + step ->
  advance (-1) next step = -1.
Proof.
  intros Hn Hs Ho. unfold advance.
  rewrite wrap_over by (unfold maxsize in *; lia).
  replace (_ <? next) with true
    by (symmetry; apply Z.ltb_lt; unfold maxsize in *; lia).
  reflexivity.
Qed.

Lemma advance_after_wrap (step : Z) :
  1 <= step <= maxsize -> advance (-1) (-1) step = step - 1.
Proof.
  intros Hs. unfold advance.
  replace (-1 + step) with (step - 1) by lia.
  rewrite wrap_small by (unfold maxsize in *; lia).
  replace (step - 1 <? -1) with false by (symmetry; apply Z.ltb_ge; lia).
  reflexivity.
Qed.

(** X19.  Without a stop, a step that takes the index past [sys.maxsize]
    makes the slice yield two neighbours: when [start + step] exceeds
    [sys.maxsize] and the iteration has fewer than [step] elements, the
    slice from [start] with that step is the element at [start] followed by
    the one right after it (or as many of the two as there are), where the
    standard reading has the element at [start] alone. *)
Theorem slice_step_wraps (q : Query) (xs : list atom) (a s : Z) :
  drain (yielded q) = Ok xs ->
  0 <= a <= maxsize -> 1 <= s <= maxsize ->
  maxsize < a + s ->
  Z.of_nat (List.length xs) < s ->
  getitem_list q (VSlice (VAtom (AInt a)) (VAtom ANone) (VAtom (AInt s)))
    = Ok (firstn 2 (skipn (Z.to_nat a) xs)) /\
  spec_slice xs (Some a) None (Some s) = Ok (firstn 1 (skipn (Z.to_nat a) xs)).
Proof.
  intros Hxs Ha Hs Ho Hlen. split.
  - apply drain_Ok_inv in Hxs.
    pose proof (getitem_list_slice q (Some a) None (Some s) Ha I Hs) as G.
    cbn [bound] in G. rewrite G, Hxs. clear G.
    rewrite islice_skip by lia. rewrite Z.sub_0_r.
    pose proof (length_skipn (Z.to_nat a) xs) as L.
    destruct (skipn (Z.to_nat a) xs) as [| x0 [| x1 r]].
    + simpl. now rewrite Z.ltb_irrefl.
    + simpl. rewrite Z.ltb_irrefl. simpl.
      rewrite advance_wrapped by assumption.
      replace (a + 1 <? -1) with false by (symmetry; apply Z.ltb_ge; lia).
      reflexivity.
    + simpl map. simpl islice_run. rewrite Z.ltb_irrefl.
      change (stopped (-1) a) with false. cbn iota.
      rewrite advance_wrapped by assumption.
      replace (a + 1 <? -1) with false by (symmetry; apply Z.ltb_ge; lia).
      change (stopped (-1) (a + 1)) with false. cbn iota.
      rewrite advance_after_wrap by assumption.
      rewrite islice_exhaust; [reflexivity |].
      simpl List.length in L. lia.
  - destruct (spec_slice_nth xs (Some a) None (Some s)) as (zs & Ez & Nz);
      [exact Ha | exact I | exact Hs |].
    rewrite Ez. f_equal. apply nth_error_ext. intros k.
    rewrite Nz, nth_error_firstn, nth_error_skipn.
    assert (Hl : forall i, 0 <= i ->
              (nth_error xs (Z.to_nat i) = None <-> Z.of_nat (List.length xs) <= i)).
    { intros i Hi. rewrite nth_error_None. lia. }
    destruct k as [| k].
    + change (Nat.ltb 0 1) with true. cbn iota. rewrite Nat.add_0_r.
      replace (Z.min a (Z.of_nat (List.length xs)) + Z.of_nat 0 * s)
        with (Z.min a (Z.of_nat (List.length xs))) by lia.
      destruct (Z.min a (Z.of_nat (List.length xs)) <? Z.of_nat (List.length xs))
        eqn:E.
      * apply Z.ltb_lt in E. f_equal. lia.
      * apply Z.ltb_ge in E. symmetry. apply Hl; lia.
    + change (Nat.ltb (S k) 1) with false. cbn iota.
      replace (_ <? _) with false; [reflexivity |].
      symmetry. apply Z.ltb_ge. nia.
Qed.

Lemma slice_step_wraps_witness :
  getitem_list (Query_init sample_db)
    (VSlice (VAtom (AInt 1)) (VAtom ANone) (VAtom (AInt maxsize)))
  = Ok (firstn 2 (skipn (Z.to_nat 1) [AInt 10; AInt 20; AInt 30])).
Proof.
  apply (proj1 (slice_step_wraps (Query_init sample_db)
                  [AInt 10; AInt 20; AInt 30] 1 maxsize eq_refl
                  ltac:(unfold maxsize; lia) ltac:(unfold maxsize; lia)
                  ltac:(unfold maxsize; lia) ltac:(unfold maxsize; simpl; lia))).
Defined.
